(** * SequentialBlockFile: block window, eviction and interleaved writes

    A shallow embedding of
    [Source/Processors/RecordNode/BinaryFormat/SequentialBlockFile.cpp]
    (Open Ephys GUI) and the properties of its block window.

    Conventions.
    - C++ integers are [Z] with the conversions written out: [u64] for
      [uint64] and [size_t], [u32] for [unsigned int], [i32] for [int]
      (two's complement wrap).
    - A computation that dereferences a null block pointer, indexes a sample
      buffer out of its bounds or divides by zero has no defined result: it is
      [None] in the [option] monad.
    - JUCE containers are lists: [Array<int>] is [list Z], [OwnedArray<FileBlock>]
      is [list FileBlock]; their out-of-range behaviour is written out below. *)

From stdpp Require Import base numbers list option.

Local Open Scope Z_scope.

(** ** Machine integers *)

Module Int.

Definition u64 (z : Z) : Z := z mod 2 ^ 64.
Definition u32 (z : Z) : Z := z mod 2 ^ 32.
Definition i32 (z : Z) : Z := (z + 2 ^ 31) mod 2 ^ 32 - 2 ^ 31.

(** [jmin] and [jlimit] of JUCE's MathsFunctions. *)
Definition jmin (a b : Z) : Z := if b <? a then b else a.
Definition jlimit (lo hi v : Z) : Z :=
  if v <? lo then lo else if hi <? v then hi else v.

End Int.

Import Int.

(** ** The backing file *)

(** Modelled from the spec: the output stream is not under src/. The spec
    describes it as an append-only sink whose append primitive may fail; a
    failing stream drops what it is given and reports [false]. *)
Record OutputStream := mkStream {
  written : list Z;
  failing : bool
}.

Definition stream_write (f : OutputStream) (samples : list Z) : OutputStream * bool :=
  if failing f then (f, false)
  else ({| written := written f ++ samples; failing := false |}, true).

(** ** FileBlock *)

Record FileBlock := mkFileBlock {
  getOffset : Z;
  getData : list Z
}.

(** Modelled from the spec: the FileBlock class (FileMemoryBlock.h) is not under
    src/. A block is created empty (zero-filled), with capacity [blockSize]
    samples, tagged with its offset. *)
Definition newFileBlock (blockSize offset : Z) : FileBlock :=
  {| getOffset := offset;
     getData := replicate (Z.to_nat blockSize) 0 |}.

(** Modelled from the spec: a block that leaves the window is destroyed by
    flush-to-file followed by release, and [flush()] writes the entire storage
    buffer to the backing file. The outcome of the write is dropped. *)
Definition destroyBlock (f : OutputStream) (b : FileBlock) : OutputStream :=
  (stream_write f (getData b)).1.

(** Modelled from the spec: [partialFlush(sampleCount)] writes only the first
    [sampleCount] interleaved samples of the block; the block it is used on is
    partial-flushed instead of fully flushed, so its release writes nothing
    more. *)
Definition partialFlush (f : OutputStream) (b : FileBlock) (size : Z) : OutputStream :=
  (stream_write f (take (Z.to_nat size) (getData b))).1.

Definition destroyBlocks (f : OutputStream) (bs : list FileBlock) : OutputStream :=
  foldl destroyBlock f bs.

(** ** JUCE containers *)

Module Juce.

(** [Array<int>::operator[]]: the default value out of range. *)
Definition arr_get (l : list Z) (i : Z) : Z :=
  if (0 <=? i) && (i <? Z.of_nat (length l)) then default 0 (l !! Z.to_nat i) else 0.

(** [Array<int>::set]: replaces in range, appends beyond the end, ignores a
    negative index. *)
Definition arr_set (l : list Z) (i v : Z) : list Z :=
  if i <? 0 then l
  else if i <? Z.of_nat (length l) then <[Z.to_nat i := v]> l
  else l ++ [v].

(** [OwnedArray::operator[]]: a null pointer out of range. *)
Definition own_get (bs : list FileBlock) (i : Z) : option FileBlock :=
  if (0 <=? i) && (i <? Z.of_nat (length bs)) then bs !! Z.to_nat i else None.

(** [OwnedArray::removeRange (startIndex, numberToRemove)]: both ends clamped
    to the array, the removed objects destroyed in increasing index order. *)
Definition removeRange (f : OutputStream) (bs : list FileBlock) (startIndex numberToRemove : Z)
  : OutputStream * list FileBlock :=
  let size := Z.of_nat (length bs) in
  let endIndex := jlimit 0 size (i32 (startIndex + numberToRemove)) in
  let startIndex := jlimit 0 size startIndex in
  let numberToRemove := endIndex - startIndex in
  if 0 <? numberToRemove then
    (destroyBlocks f (take (Z.to_nat numberToRemove) (drop (Z.to_nat startIndex) bs)),
     take (Z.to_nat startIndex) bs ++ drop (Z.to_nat endIndex) bs)
  else (f, bs).

(** [OwnedArray::getLast]: a null pointer when the array is empty. *)
Definition getLast (bs : list FileBlock) : option FileBlock := list.last bs.

(** [OwnedArray::remove (0)]. *)
Definition remove0 (f : OutputStream) (bs : list FileBlock) : OutputStream * list FileBlock :=
  match bs with
  | [] => (f, [])
  | b :: bs' => (destroyBlock f b, bs')
  end.

End Juce.

Import Juce.

(** ** SequentialBlockFile *)

Record SequentialBlockFile := mkSBF {
  m_file : bool;                      (* the stream pointer is non-null *)
  backing : OutputStream;             (* the stream the blocks hold and flush to *)
  m_nChannels : Z;
  m_samplesPerBlock : Z;
  m_blockSize : Z;
  m_memBlocks : list FileBlock;
  m_currentBlock : list Z;
  m_lastBlockFill : Z
}.

Definition set_file (s : SequentialBlockFile) (open : bool) : SequentialBlockFile :=
  mkSBF open (backing s) (m_nChannels s) (m_samplesPerBlock s) (m_blockSize s)
        (m_memBlocks s) (m_currentBlock s) (m_lastBlockFill s).

Definition set_backing (s : SequentialBlockFile) (f : OutputStream) : SequentialBlockFile :=
  mkSBF (m_file s) f (m_nChannels s) (m_samplesPerBlock s) (m_blockSize s)
        (m_memBlocks s) (m_currentBlock s) (m_lastBlockFill s).

Definition set_memBlocks (s : SequentialBlockFile) (bs : list FileBlock) : SequentialBlockFile :=
  mkSBF (m_file s) (backing s) (m_nChannels s) (m_samplesPerBlock s) (m_blockSize s)
        bs (m_currentBlock s) (m_lastBlockFill s).

Definition set_currentBlock (s : SequentialBlockFile) (c : list Z) : SequentialBlockFile :=
  mkSBF (m_file s) (backing s) (m_nChannels s) (m_samplesPerBlock s) (m_blockSize s)
        (m_memBlocks s) c (m_lastBlockFill s).

Definition set_lastBlockFill (s : SequentialBlockFile) (k : Z) : SequentialBlockFile :=
  mkSBF (m_file s) (backing s) (m_nChannels s) (m_samplesPerBlock s) (m_blockSize s)
        (m_memBlocks s) (m_currentBlock s) k.

(** The constructor: no stream, no block, every channel cursor at -1. The
    stream the file will be given is a parameter of the model. *)
Definition construct (file : OutputStream) (nChannels samplesPerBlock : Z) : SequentialBlockFile :=
  {| m_file := false;
     backing := file;
     m_nChannels := nChannels;
     m_samplesPerBlock := samplesPerBlock;
     m_blockSize := i32 (nChannels * samplesPerBlock);
     m_memBlocks := [];
     m_currentBlock := replicate (Z.to_nat nChannels) (-1);
     m_lastBlockFill := 0 |}.

(** [openFile]: [streamOk] is the answer of [createOutputStream]. *)
Definition openFile (s : SequentialBlockFile) (streamOk : bool) : bool * SequentialBlockFile :=
  let s := set_file s streamOk in
  if negb streamOk then (false, s)
  else (true, set_memBlocks s (m_memBlocks s ++ [newFileBlock (m_blockSize s) 0])).

(** *** allocateBlocks *)

(** Lines 151-156: the minimum of the cursors, compared as [unsigned int]. *)
Fixpoint minBlockLoop (n : nat) (i : Z) (cur : list Z) (minBlock : Z) : Z :=
  match n with
  | O => minBlock
  | S n' =>
      let c := u32 (arr_get cur i) in
      minBlockLoop n' (i + 1) cur (if c <? minBlock then c else minBlock)
  end.

(** Lines 159-162: every cursor is shifted by [minBlock]. *)
Fixpoint shiftLoop (n : nat) (i : Z) (cur : list Z) (minBlock : Z) : list Z :=
  match n with
  | O => cur
  | S n' => shiftLoop n' (i + 1) (arr_set cur i (i32 (arr_get cur i - minBlock))) minBlock
  end.

(** Lines 178-182: [n] blocks appended at successive offsets. *)
Fixpoint addLoop (n : nat) (bs : list FileBlock) (lastOffset spb blockSize : Z) : list FileBlock :=
  match n with
  | O => bs
  | S n' =>
      let lastOffset := u64 (lastOffset + spb) in
      addLoop n' (bs ++ [newFileBlock blockSize lastOffset]) lastOffset spb blockSize
  end.

(** The blocks [addLoop] appends. *)
Fixpoint freshBlocks (n : nat) (lastOffset spb blockSize : Z) : list FileBlock :=
  match n with
  | O => []
  | S n' =>
      let lastOffset := u64 (lastOffset + spb) in
      newFileBlock blockSize lastOffset :: freshBlocks n' lastOffset spb blockSize
  end.

Definition minBlock (s : SequentialBlockFile) : Z :=
  minBlockLoop (Z.to_nat (m_nChannels s)) 0 (m_currentBlock s) 4294967295.

(** The number of blocks line 176 computes. *)
Definition newBlockCount (spb lastOffset startIndex numSamples : Z) : option Z :=
  let maxAddr := u64 (lastOffset + spb - 1) in
  let newSpaceNeeded := u64 (numSamples - u64 (maxAddr - startIndex)) in
  if u64 spb =? 0 then None
  else Some (i32 (u64 (newSpaceNeeded + spb - 1) / u64 spb)).

Definition allocateBlocks (s : SequentialBlockFile) (startIndex numSamples : Z)
  : option SequentialBlockFile :=
  let mb := minBlock s in
  let cur := shiftLoop (Z.to_nat (m_nChannels s)) 0 (m_currentBlock s) mb in
  let removed := removeRange (backing s) (m_memBlocks s) 0 (i32 mb) in
  let f := removed.1 in
  let bs := removed.2 in
  last_block ← getLast bs;
  let lastOffset := getOffset last_block in
  newBlocks ← newBlockCount (m_samplesPerBlock s) lastOffset startIndex numSamples;
  let bs := addLoop (Z.to_nat newBlocks) bs lastOffset (m_samplesPerBlock s) (m_blockSize s) in
  let s := set_memBlocks (set_backing (set_currentBlock s cur) f) bs in
  Some (if 0 <? newBlocks then set_lastBlockFill s 0 else s).

(** *** writeChannel *)

(** Lines 94-98: the backward scan; [n] is [bIndex + 1]. The result is the
    index the loop stops at, -1 when no block qualifies. *)
Fixpoint findBlock (bs : list FileBlock) (startPos : Z) (n : nat) : option Z :=
  match n with
  | O => Some (-1)
  | S k =>
      b ← bs !! k;
      if getOffset b <=? startPos then Some (Z.of_nat k) else findBlock bs startPos k
  end.

(** Lines 117-127: [n] samples copied with stride [nChannels]. *)
Fixpoint copyLoop (n : nat) (i : Z) (blockData : list Z) (startMemPos channel nChannels : Z)
    (data : list Z) (dataIdx : Z) : option (list Z * Z) :=
  match n with
  | O => Some (blockData, dataIdx)
  | S n' =>
      let pos := startMemPos + channel + i32 (i * nChannels) in
      if (dataIdx <? 0) || (pos <? 0) || (Z.of_nat (length blockData) <=? pos) then None
      else
        v ← data !! Z.to_nat dataIdx;
        copyLoop n' (i + 1) (<[Z.to_nat pos := v]> blockData) startMemPos channel nChannels
                 data (dataIdx + 1)
  end.

Definition set_data (b : FileBlock) (d : list Z) : FileBlock :=
  {| getOffset := getOffset b; getData := d |}.

(** Lines 113-142. Every iteration dereferences block [bIndex] and advances
    [bIndex], so the loop runs at most once per block before it runs off the
    array; [fuel] bounds the iterations (see [writeLoop_fuel]). The result is
    the state and the final [bIndex]. *)
Fixpoint writeLoop (fuel : nat) (s : SequentialBlockFile) (channel : Z) (data : list Z)
    (nSamples lastBlockIdx : Z) (bIndex writtenSamples startIdx startMemPos dataIdx : Z)
  : option (SequentialBlockFile * Z) :=
  if writtenSamples <? nSamples then
    match fuel with
    | O => None
    | S fuel' =>
        blk ← own_get (m_memBlocks s) bIndex;
        let samplesToWrite :=
          jmin (i32 (nSamples - writtenSamples)) (i32 (m_samplesPerBlock s - startIdx)) in
        '(d, dataIdx) ← copyLoop (Z.to_nat samplesToWrite) 0 (getData blk) startMemPos channel
                                 (m_nChannels s) data dataIdx;
        let s := set_memBlocks s (<[Z.to_nat bIndex := set_data blk d]> (m_memBlocks s)) in
        let writtenSamples := i32 (writtenSamples + samplesToWrite) in
        let samplePos := u64 (i32 (startIdx + samplesToWrite)) in
        let s := if (bIndex =? lastBlockIdx) && (m_lastBlockFill s <? samplePos)
                 then set_lastBlockFill s samplePos else s in
        writeLoop fuel' s channel data nSamples lastBlockIdx (bIndex + 1) writtenSamples 0 0 dataIdx
    end
  else Some (s, bIndex).

(** Line 91: the tail block cannot hold the end of the write, or there is no
    block. *)
Definition needsAllocation (s : SequentialBlockFile) (startPos nSamples : Z) : bool :=
  match getLast (m_memBlocks s) with
  | None => true
  | Some b => u64 (getOffset b + m_samplesPerBlock s) <? u64 (startPos + nSamples)
  end.

(** Lines 81-145, with the arguments in the order of the source: startPos,
    channel, data, nSamples. *)
Definition writeChannel (s : SequentialBlockFile) (startPos channel : Z) (data : list Z)
    (nSamples : Z) : option (bool * SequentialBlockFile) :=
  if negb (m_file s) then Some (false, s)
  else
    s ← (if needsAllocation s startPos nSamples
         then allocateBlocks s startPos nSamples else Some s);
    bIndex ← findBlock (m_memBlocks s) startPos (length (m_memBlocks s));
    if bIndex <? 0 then Some (false, s)
    else
      blk ← own_get (m_memBlocks s) bIndex;
      let startIdx := i32 (startPos - getOffset blk) in
      let startMemPos := i32 (startIdx * m_nChannels s) in
      let lastBlockIdx := Z.of_nat (length (m_memBlocks s)) - 1 in
      '(s, bIndex) ← writeLoop (S (length (m_memBlocks s))) s channel data nSamples lastBlockIdx
                               bIndex 0 startIdx startMemPos 0;
      Some (true, set_currentBlock s (arr_set (m_currentBlock s) channel (bIndex - 1))).

(** *** The destructor *)

(** Lines 41-45: [remove(0)] repeated [n] times. *)
Fixpoint removeLoop (n : nat) (f : OutputStream) (bs : list FileBlock)
  : OutputStream * list FileBlock :=
  match n with
  | O => (f, bs)
  | S n' => let '(f, bs) := remove0 f bs in removeLoop n' f bs
  end.

(** Lines 38-52: the result is the stream as the object leaves it. *)
Definition destructor (s : SequentialBlockFile) : option OutputStream :=
  let n := Z.of_nat (length (m_memBlocks s)) in
  let removed := removeLoop (Z.to_nat (n - 1)) (backing s) (m_memBlocks s) in
  b ← own_get removed.2 0;
  Some (partialFlush removed.1 b (u64 (m_lastBlockFill s * m_nChannels s))).

(** ** Sequences of operations *)

Inductive Op :=
| OpOpen (streamOk : bool)
| OpWrite (startPos channel : Z) (data : list Z) (nSamples : Z)
| OpAlloc (startIndex numSamples : Z).

Definition step (s : SequentialBlockFile) (o : Op) : option SequentialBlockFile :=
  match o with
  | OpOpen streamOk => Some (openFile s streamOk).2
  | OpWrite startPos channel data nSamples =>
      snd <$> writeChannel s startPos channel data nSamples
  | OpAlloc startIndex numSamples => allocateBlocks s startIndex numSamples
  end.

Fixpoint run (s : SequentialBlockFile) (ops : list Op) : option SequentialBlockFile :=
  match ops with
  | [] => Some s
  | o :: ops => s' ← step s o; run s' ops
  end.

Definition isOpen (o : Op) : bool :=
  match o with OpOpen true => true | _ => false end.

(** The number of calls of [openFile] that return [true]. *)
Fixpoint opens (ops : list Op) : nat :=
  match ops with
  | [] => 0
  | o :: ops => ((if isOpen o then 1 else 0) + opens ops)%nat
  end.

(** ** Predicates on the window *)

Definition offsets (s : SequentialBlockFile) : list Z := getOffset <$> m_memBlocks s.

(** Consecutive blocks are [spb] apart, in the [uint64] arithmetic of the
    offsets. *)
Definition contiguous (spb : Z) (offs : list Z) : Prop :=
  ∀ (i : nat) (o o' : Z), offs !! i = Some o → offs !! S i = Some o' → o' = u64 (o + spb).

Definition inRange (offs : list Z) : Prop := ∀ o, o ∈ offs → 0 ≤ o < 2 ^ 64.

(** The state [allocateBlocks] or the tail check hands to the scan of
    [writeChannel]. *)
Definition prepared (s : SequentialBlockFile) (startPos nSamples : Z)
  : option SequentialBlockFile :=
  if needsAllocation s startPos nSamples then allocateBlocks s startPos nSamples else Some s.

(** The number of blocks [allocateBlocks] takes off the front of the window. *)
Definition evicted (s : SequentialBlockFile) : nat :=
  Z.to_nat (jlimit 0 (Z.of_nat (length (m_memBlocks s))) (i32 (0 + i32 (minBlock s)))).

Definition firstOffset (s : SequentialBlockFile) : Z :=
  default 0 (getOffset <$> head (m_memBlocks s)).

(** One past the last sample the window covers. *)
Definition tailEnd (s : SequentialBlockFile) : Z :=
  firstOffset s + Z.of_nat (length (m_memBlocks s)) * m_samplesPerBlock s.

(** The window as the constructor and [openFile] set it up and the operations
    keep it, as long as no offset reaches the end of [uint64] and a block fits
    an [int]. *)
Record BlocksOk (s : SequentialBlockFile) : Prop := {
  ok_nChannels : 1 ≤ m_nChannels s;
  ok_spb : 1 ≤ m_samplesPerBlock s;
  ok_blockSize : m_blockSize s = m_nChannels s * m_samplesPerBlock s;
  ok_int : m_nChannels s * m_samplesPerBlock s < 2 ^ 31;
  ok_nonempty : m_memBlocks s ≠ [];
  ok_data : ∀ (i : nat) b,
    m_memBlocks s !! i = Some b → Z.of_nat (length (getData b)) = m_blockSize s;
  ok_first : 0 ≤ firstOffset s;
  ok_offsets : ∀ (i : nat) b,
    m_memBlocks s !! i = Some b →
    getOffset b = firstOffset s + Z.of_nat i * m_samplesPerBlock s;
  ok_tail : tailEnd s < 2 ^ 64
}.

(** One cursor per channel, each the index of a resident block or below 0. *)
Definition CursorsOk (s : SequentialBlockFile) : Prop :=
  Z.of_nat (length (m_currentBlock s)) = m_nChannels s ∧
  ∀ c, c ∈ m_currentBlock s → - 2 ^ 31 ≤ c < Z.of_nat (length (m_memBlocks s)).

Definition WindowOk (s : SequentialBlockFile) : Prop := BlocksOk s ∧ CursorsOk s.

(** The contract of [writeChannel]: a channel of the file, a buffer of
    [nSamples] samples, and a position within reach of [int] and [uint64]
    arithmetic. *)
Record WriteOk (s : SequentialBlockFile) (startPos channel : Z) (data : list Z)
    (nSamples : Z) : Prop := {
  w_channel : 0 ≤ channel < m_nChannels s;
  w_samples : 0 ≤ nSamples < 2 ^ 31;
  w_data : nSamples ≤ Z.of_nat (length data);
  w_start : 0 ≤ startPos;
  w_reach : startPos + nSamples - tailEnd s < 2 ^ 31 - 1;
  w_room : startPos + nSamples + m_samplesPerBlock s < 2 ^ 64
}.

(** The sample of row [r], channel [c], in block [j] of the window. *)
Definition cell (s : SequentialBlockFile) (j : nat) (r c : Z) : option Z :=
  b ← m_memBlocks s !! j; getData b !! Z.to_nat (r * m_nChannels s + c).

(** Two states that differ at most in the samples the blocks hold and in the
    fill mark. *)
Record SameWindow (s s' : SequentialBlockFile) : Prop := {
  same_file : m_file s' = m_file s;
  same_backing : backing s' = backing s;
  same_nChannels : m_nChannels s' = m_nChannels s;
  same_spb : m_samplesPerBlock s' = m_samplesPerBlock s;
  same_blockSize : m_blockSize s' = m_blockSize s;
  same_cursors : m_currentBlock s' = m_currentBlock s;
  same_offsets : offsets s' = offsets s;
  same_sizes : (length ∘ getData) <$> m_memBlocks s' = (length ∘ getData) <$> m_memBlocks s
}.

(** The state after one iteration of the loop of [writeChannel]. *)
Definition iterState (s : SequentialBlockFile) (bIndex lastBlockIdx : Z) (blk : FileBlock)
    (d : list Z) (samplePos : Z) : SequentialBlockFile :=
  let s := set_memBlocks s (<[Z.to_nat bIndex := set_data blk d]> (m_memBlocks s)) in
  if (bIndex =? lastBlockIdx) && (m_lastBlockFill s <? samplePos)
  then set_lastBlockFill s samplePos else s.

(** What the file holds once every resident block is flushed in full: the
    samples written to the stream, then the blocks of the window in order. *)
Definition fileImage (s : SequentialBlockFile) : list Z :=
  written (backing s) ++ concat (getData <$> m_memBlocks s).

(** The stream holds exactly the samples below the window. *)
Definition DiskOk (s : SequentialBlockFile) : Prop :=
  failing (backing s) = false ∧
  Z.of_nat (length (written (backing s))) = firstOffset s * m_nChannels s.

(** ** The scenario of the specification *)

Module Scenario.

Definition file0 : OutputStream := {| written := []; failing := false |}.
Definition s0 := snd (openFile (construct file0 2 4) true).
Definition w1 := writeChannel s0 0 0 [1; 2; 3; 4] 4.
Definition s1 := default s0 (snd <$> w1).
Definition w2 := writeChannel s1 0 1 [9; 8; 7; 6] 4.
Definition s2 := default s0 (snd <$> w2).
Definition w3 := writeChannel s2 4 0 [5] 1.
Definition s3 := default s0 (snd <$> w3).
Definition w4 := writeChannel s3 0 1 [9; 8; 7; 6] 4.

(** The same calls as a sequence of operations. *)
Definition ops3 : list Op :=
  [OpOpen true; OpWrite 0 0 [1; 2; 3; 4] 4; OpWrite 0 1 [9; 8; 7; 6] 4; OpWrite 4 0 [5] 1].

End Scenario.

(** ** A channel that has not written yet *)

Module Lagging.

(** Channel 0 has written into blocks 0 and 1, channel 1 has not written. *)
Definition ops : list Op :=
  [OpOpen true; OpWrite 0 0 [1; 2; 3; 4] 4; OpWrite 4 0 [5] 1].

Definition s2 : SequentialBlockFile :=
  default (construct Scenario.file0 2 4) (run (construct Scenario.file0 2 4) ops).

End Lagging.

(** ** A write behind the window *)

Module Stale.

(** One channel writes blocks 0, 1 and 2 in turn: block 0 has been evicted. *)
Definition ops : list Op :=
  [OpOpen true; OpWrite 0 0 [1; 2; 3; 4] 4; OpWrite 4 0 [5] 1; OpWrite 8 0 [6] 1].

Definition s3 : SequentialBlockFile :=
  {| m_file := true;
     backing := {| written := [1; 2; 3; 4]; failing := false |};
     m_nChannels := 1;
     m_samplesPerBlock := 4;
     m_blockSize := 4;
     m_memBlocks := [{| getOffset := 4; getData := [5; 0; 0; 0] |};
                     {| getOffset := 8; getData := [6; 0; 0; 0] |}];
     m_currentBlock := [1];
     m_lastBlockFill := 1 |}.

End Stale.

(** ** A window that allocateBlocks empties *)

Module Crash.

(** Channel 0 writes up to sample 20 while channel 1 does not write: the
    window starts at block 16 and the cursors are [1; -5]. A write of zero
    samples of channel 0 in the first block sets its cursor to -1; the
    allocation for the write of channel 1 at 24 turns the cursors [-1; -5]
    into [4; 0]; a write of zero samples of channel 1 in the first block sets
    its cursor to -1. Every call returns true. *)
Definition ops : list Op :=
  [OpOpen true;
   OpWrite 0 0 [1; 2; 3; 4] 4;
   OpWrite 4 0 [5; 6; 7; 8; 9; 10; 11; 12; 13; 14; 15; 16; 17] 13;
   OpWrite 17 0 [18; 19; 20; 21] 4;
   OpWrite 16 0 [] 0;
   OpWrite 24 1 [31; 32; 33; 34; 35] 5;
   OpWrite 16 1 [] 0].

Definition s6 : SequentialBlockFile :=
  {| m_file := true;
     backing :=
       {| written := [1; 0; 2; 0; 3; 0; 4; 0; 5; 0; 6; 0; 7; 0; 8; 0;
                      9; 0; 10; 0; 11; 0; 12; 0; 13; 0; 14; 0; 15; 0; 16; 0];
          failing := false |};
     m_nChannels := 2;
     m_samplesPerBlock := 4;
     m_blockSize := 8;
     m_memBlocks := [{| getOffset := 16; getData := [17; 0; 18; 0; 19; 0; 20; 0] |};
                     {| getOffset := 20; getData := [21; 0; 0; 0; 0; 0; 0; 0] |};
                     {| getOffset := 24; getData := [0; 31; 0; 32; 0; 33; 0; 34] |};
                     {| getOffset := 28; getData := [0; 35; 0; 0; 0; 0; 0; 0] |}];
     m_currentBlock := [4; -1];
     m_lastBlockFill := 1 |}.

End Crash.

(** ** Tactics *)

(** Linear arithmetic with division and modulo by constants. *)
Ltac zdiv := Z.to_euclidean_division_equations; lia.

(** Well-formedness of a state given by its value. *)
Ltac concrete_blocks :=
  let i := fresh "i" in
  intros i ?;
  do 3 (destruct i as [|i]; [vm_compute; intros [= <-]; reflexivity|]);
  vm_compute; discriminate.

Ltac concrete_window :=
  split;
  [ split; [vm_compute; discriminate| vm_compute; discriminate| vm_compute; reflexivity
           | vm_compute; reflexivity| vm_compute; discriminate| concrete_blocks
           | vm_compute; discriminate| concrete_blocks| vm_compute; reflexivity]
  | split; [vm_compute; reflexivity|];
    let c := fresh "c" in let Hc := fresh "Hc" in
    intros c Hc; vm_compute in Hc;
    repeat (apply elem_of_cons in Hc as [->|Hc]; [vm_compute; split; discriminate || reflexivity|]);
    by apply elem_of_nil in Hc ].

(** * Properties *)

(** ** Machine integers *)

Lemma u64_id z : 0 ≤ z < 2 ^ 64 → u64 z = z.
Proof. intros. unfold u64. apply Z.mod_small. lia. Qed.

Lemma u64_range z : 0 ≤ u64 z < 2 ^ 64.
Proof. unfold u64. apply Z.mod_pos_bound. lia. Qed.

Lemma u32_range z : 0 ≤ u32 z < 2 ^ 32.
Proof. unfold u32. apply Z.mod_pos_bound. lia. Qed.

Lemma i32_id z : - 2 ^ 31 ≤ z < 2 ^ 31 → i32 z = z.
Proof. intros. unfold i32. rewrite Z.mod_small; lia. Qed.

Lemma i32_range z : - 2 ^ 31 ≤ i32 z < 2 ^ 31.
Proof. unfold i32. pose proof (Z.mod_pos_bound (z + 2 ^ 31) (2 ^ 32)). lia. Qed.

Lemma i32_idem z : i32 (i32 z) = i32 z.
Proof. apply i32_id, i32_range. Qed.


Lemma jmin_min a b : jmin a b = Z.min a b.
Proof. unfold jmin. case_match; lia. Qed.

Lemma jlimit_range lo hi v : lo ≤ hi → lo ≤ jlimit lo hi v ≤ hi.
Proof. unfold jlimit. intros. repeat case_match; lia. Qed.

(** ** The containers *)

Lemma own_get_Some bs i b :
  own_get bs i = Some b ↔ 0 ≤ i ∧ bs !! Z.to_nat i = Some b.
Proof.
  unfold own_get. split.
  - case_match eqn:E; [|done]. intros. split; [lia|done].
  - intros [Hi Hb]. pose proof (lookup_lt_Some _ _ _ Hb).
    case_match eqn:E; [done|]. lia.
Qed.

Lemma removeRange0 f bs n :
  let k := Z.to_nat (jlimit 0 (Z.of_nat (length bs)) (i32 (0 + n))) in
  removeRange f bs 0 n = (destroyBlocks f (take k bs), drop k bs).
Proof.
  intros k. subst k. unfold removeRange.
  pose proof (jlimit_range 0 (Z.of_nat (length bs)) (i32 (0 + n))) as Hr.
  replace (jlimit 0 (Z.of_nat (length bs)) 0) with 0
    by (unfold jlimit; repeat case_match; lia).
  rewrite Z.sub_0_r. case_match eqn:E; simpl.
  - by rewrite drop_0.
  - replace (jlimit 0 (Z.of_nat (length bs)) (i32 (0 + n))) with 0 by lia.
    simpl. by rewrite drop_0.
Qed.

Lemma removeLoop_spec n f bs :
  removeLoop n f bs = (destroyBlocks f (take n bs), drop n bs).
Proof.
  revert f bs. induction n as [|n IH]; intros f bs; simpl.
  - by rewrite drop_0.
  - destruct bs as [|b bs]; simpl.
    + rewrite IH. by rewrite take_nil, drop_nil.
    + by rewrite IH.
Qed.

Lemma destroyBlocks_app f bs1 bs2 :
  destroyBlocks f (bs1 ++ bs2) = destroyBlocks (destroyBlocks f bs1) bs2.
Proof. unfold destroyBlocks. apply foldl_app. Qed.

Lemma destroyBlocks_written f bs :
  failing f = false →
  failing (destroyBlocks f bs) = false ∧
  written (destroyBlocks f bs) = written f ++ concat (getData <$> bs).
Proof.
  revert f. induction bs as [|b bs IH]; intros f Hf.
  - simpl. by rewrite app_nil_r.
  - change (destroyBlocks f (b :: bs)) with (destroyBlocks (destroyBlock f b) bs).
    assert (destroyBlock f b = {| written := written f ++ getData b; failing := false |}) as ->
      by (unfold destroyBlock, stream_write; by rewrite Hf).
    destruct (IH {| written := written f ++ getData b; failing := false |} eq_refl) as [H1 H2].
    split; [done|]. rewrite H2. simpl. by rewrite <-app_assoc.
Qed.

(** ** allocateBlocks, unfolded *)

Lemma addLoop_fresh n bs lastOffset spb blockSize :
  addLoop n bs lastOffset spb blockSize = bs ++ freshBlocks n lastOffset spb blockSize.
Proof.
  revert bs lastOffset. induction n as [|n IH]; intros bs lo; simpl.
  - by rewrite app_nil_r.
  - rewrite IH. by rewrite <-app_assoc.
Qed.

Lemma allocateBlocks_Some s startIndex numSamples s' :
  allocateBlocks s startIndex numSamples = Some s' ↔
  ∃ lb nb,
    getLast (drop (evicted s) (m_memBlocks s)) = Some lb ∧
    newBlockCount (m_samplesPerBlock s) (getOffset lb) startIndex numSamples = Some nb ∧
    s' = mkSBF (m_file s) (destroyBlocks (backing s) (take (evicted s) (m_memBlocks s)))
           (m_nChannels s) (m_samplesPerBlock s) (m_blockSize s)
           (drop (evicted s) (m_memBlocks s) ++
              freshBlocks (Z.to_nat nb) (getOffset lb) (m_samplesPerBlock s) (m_blockSize s))
           (shiftLoop (Z.to_nat (m_nChannels s)) 0 (m_currentBlock s) (minBlock s))
           (if 0 <? nb then 0 else m_lastBlockFill s).
Proof.
  unfold allocateBlocks. rewrite removeRange0. fold (evicted s). cbn [fst snd].
  destruct (getLast (drop (evicted s) (m_memBlocks s))) as [lb|]; simpl.
  2: { split; [done|]. by intros (? & ? & ? & _). }
  destruct (newBlockCount _ _ _ _) as [nb|] eqn:En; simpl.
  2: { split; [done|]. intros (? & ? & ? & ? & _). simplify_eq. }
  rewrite addLoop_fresh. split.
  - intros [= <-]. exists lb, nb. repeat split; [done|]. by destruct (0 <? nb).
  - intros (? & ? & ? & ? & ->). simplify_eq. by destruct (0 <? _).
Qed.

(** ** The copy loop *)

Lemma copyLoop_length n : ∀ i bd smp ch nCh data di bd' di',
  copyLoop n i bd smp ch nCh data di = Some (bd', di') → length bd' = length bd.
Proof.
  induction n as [|n IH]; intros i bd smp ch nCh data di bd' di'; simpl.
  - by intros [= <- _].
  - case_match; [done|]. destruct (data !! Z.to_nat di) as [v|]; [|done]. simpl.
    intros Hc%IH. by rewrite length_insert in Hc.
Qed.

Lemma copyLoop_spec n : ∀ i bd smp ch nCh data di,
  0 ≤ i → 0 ≤ di → di + Z.of_nat n ≤ Z.of_nat (length data) →
  1 ≤ nCh → (i + Z.of_nat n) * nCh < 2 ^ 31 →
  0 ≤ smp + ch → smp + ch + (i + Z.of_nat n - 1) * nCh < Z.of_nat (length bd) ∨ n = O →
  ∃ bd',
    copyLoop n i bd smp ch nCh data di = Some (bd', di + Z.of_nat n) ∧
    (∀ j, 0 ≤ j < Z.of_nat n →
       bd' !! Z.to_nat (smp + ch + (i + j) * nCh) = data !! Z.to_nat (di + j)) ∧
    (∀ p : nat, (∀ j, 0 ≤ j < Z.of_nat n → Z.of_nat p ≠ smp + ch + (i + j) * nCh) →
       bd' !! p = bd !! p).
Proof.
  induction n as [|n IH]; intros i bd smp ch nCh data di Hi Hdi Hdata HnCh Hint Hlo Hhi.
  - exists bd. simpl. rewrite Z.add_0_r. split; [done|]. split; [lia|done].
  - destruct Hhi as [Hhi|]; [|done].
    simpl copyLoop. rewrite (i32_id (i * nCh)) by nia.
    set (pos := smp + ch + i * nCh).
    assert (0 ≤ pos < Z.of_nat (length bd)) as Hpos by (subst pos; nia).
    destruct ((di <? 0) || (pos <? 0) || (Z.of_nat (length bd) <=? pos)) eqn:E; [lia|].
    destruct (lookup_lt_is_Some_2 data (Z.to_nat di)) as [v Hv]; [lia|].
    rewrite Hv. simpl.
    destruct (IH (i + 1) (<[Z.to_nat pos := v]> bd) smp ch nCh data (di + 1))
      as (bd' & Hrun & Hin & Hout); try lia.
    { rewrite length_insert. left. nia. }
    exists bd'. split; [rewrite Hrun; do 2 f_equal; lia|]. split.
    + intros j Hj. destruct (decide (j = 0)) as [->|Hne].
      * rewrite !Z.add_0_r. fold pos. rewrite Hv.
        rewrite Hout.
        -- apply list_lookup_insert_eq. lia.
        -- intros j' Hj'. subst pos. nia.
      * specialize (Hin (j - 1)). replace (i + 1 + (j - 1)) with (i + j) in Hin by lia.
        rewrite Hin by lia. f_equal. lia.
    + intros p Hp. rewrite Hout.
      * apply list_lookup_insert_ne. specialize (Hp 0). rewrite Z.add_0_r in Hp.
        fold pos in Hp. lia.
      * intros j Hj. specialize (Hp (j + 1)).
        replace (i + (j + 1)) with (i + 1 + j) in Hp by lia. apply Hp. lia.
Qed.

(** ** The write loop *)

Lemma writeLoop_done fuel s ch data n lbi bi w si smp di :
  n ≤ w → writeLoop fuel s ch data n lbi bi w si smp di = Some (s, bi).
Proof.
  intros Hw. destruct fuel; simpl; destruct (w <? n) eqn:E; done || lia.
Qed.

Lemma writeLoop_iter fuel s ch data n lbi bi w si smp di :
  w < n →
  writeLoop (S fuel) s ch data n lbi bi w si smp di =
  blk ← own_get (m_memBlocks s) bi;
  let stw := jmin (i32 (n - w)) (i32 (m_samplesPerBlock s - si)) in
  r ← copyLoop (Z.to_nat stw) 0 (getData blk) smp ch (m_nChannels s) data di;
  writeLoop fuel (iterState s bi lbi blk r.1 (u64 (i32 (si + stw)))) ch data n lbi
            (bi + 1) (i32 (w + stw)) 0 0 r.2.
Proof.
  intros Hw. simpl. destruct (w <? n) eqn:E; [|lia].
  destruct (own_get (m_memBlocks s) bi) as [blk|]; [|done]. simpl.
  by destruct (copyLoop _ _ _ _ _ _ _ _) as [[d di']|].
Qed.

Global Arguments writeLoop : simpl never.

Lemma SameWindow_refl s : SameWindow s s.
Proof. by split. Qed.

Lemma SameWindow_trans s1 s2 s3 : SameWindow s1 s2 → SameWindow s2 s3 → SameWindow s1 s3.
Proof. intros [] []. split; congruence. Qed.

Lemma iterState_same s bi lbi blk d pos :
  own_get (m_memBlocks s) bi = Some blk →
  length d = length (getData blk) →
  SameWindow s (iterState s bi lbi blk d pos).
Proof.
  intros [Hbi Hblk]%own_get_Some Hlen. unfold iterState.
  assert (SameWindow s (set_memBlocks s (<[Z.to_nat bi := set_data blk d]> (m_memBlocks s)))).
  { split; try done; unfold offsets; simpl; rewrite list_fmap_insert; simpl.
    - apply list_insert_id. by rewrite list_lookup_fmap, Hblk.
    - rewrite Hlen. apply list_insert_id. by rewrite list_lookup_fmap, Hblk. }
  case_match; [|done]. destruct H. by split.
Qed.

Lemma writeLoop_frame fuel : ∀ s ch data n lbi bi w si smp di s' bi',
  writeLoop fuel s ch data n lbi bi w si smp di = Some (s', bi') → SameWindow s s'.
Proof.
  induction fuel as [|fuel IH]; intros s ch data n lbi bi w si smp di s' bi'.
  - unfold writeLoop. case_match; [done|]. intros [= <- _]. apply SameWindow_refl.
  - destruct (decide (w < n)) as [Hw|Hw].
    + rewrite writeLoop_iter by done.
      destruct (own_get (m_memBlocks s) bi) as [blk|] eqn:Eb; [|done]. simpl.
      destruct (copyLoop _ _ _ _ _ _ _ _) as [[d di']|] eqn:Ec; [|done]. simpl.
      intros Hrec%IH. eapply SameWindow_trans; [|done].
      apply iterState_same; [done|]. by eapply copyLoop_length.
    + rewrite writeLoop_done by lia. intros [= <- _]. apply SameWindow_refl.
Qed.

Lemma SameWindow_length s s' : SameWindow s s' → length (m_memBlocks s') = length (m_memBlocks s).
Proof.
  intros [_ _ _ _ _ _ H _]. unfold offsets in H.
  by rewrite <-(length_fmap getOffset), H, length_fmap.
Qed.

(** More fuel than blocks changes nothing: the loop has returned or has run off
    the array before the fuel of [writeChannel] is used up. *)
Lemma writeLoop_fuel fuel : ∀ s ch data n lbi bi w si smp di,
  0 ≤ bi → Z.of_nat (length (m_memBlocks s)) - bi < Z.of_nat fuel →
  writeLoop (S fuel) s ch data n lbi bi w si smp di =
  writeLoop fuel s ch data n lbi bi w si smp di.
Proof.
  induction fuel as [|fuel IH]; intros s ch data n lbi bi w si smp di Hbi Hfuel.
  - destruct (decide (w < n)) as [Hw|Hw].
    2: { by rewrite !writeLoop_done by lia. }
    rewrite writeLoop_iter by done.
    destruct (own_get (m_memBlocks s) bi) as [blk|] eqn:Eb.
    { apply own_get_Some in Eb as [_ Hl%lookup_lt_Some]. lia. }
    unfold writeLoop. destruct (w <? n) eqn:E; [done|lia].
  - destruct (decide (w < n)) as [Hw|Hw].
    2: { by rewrite !writeLoop_done by lia. }
    rewrite (writeLoop_iter (S fuel)), (writeLoop_iter fuel) by done.
    destruct (own_get (m_memBlocks s) bi) as [blk|] eqn:Eb; [|done]. simpl.
    destruct (copyLoop _ _ _ _ _ _ _ _) as [[d di']|] eqn:Ec; [|done]. simpl.
    apply IH; [lia|].
    rewrite (SameWindow_length s); [lia|].
    apply iterState_same; [done|]. by eapply copyLoop_length.
Qed.

(** The fuel [writeChannel] gives the loop is enough: any larger amount gives
    the same result. *)
Lemma writeLoop_fuel_enough k : ∀ s ch data n lbi bi w si smp di,
  0 ≤ bi →
  writeLoop (S (length (m_memBlocks s)) + k) s ch data n lbi bi w si smp di =
  writeLoop (S (length (m_memBlocks s))) s ch data n lbi bi w si smp di.
Proof.
  induction k as [|k IH]; intros s ch data n lbi bi w si smp di Hbi.
  - by rewrite Nat.add_0_r.
  - rewrite <-IH by done. rewrite Nat.add_succ_r. apply writeLoop_fuel; [done|lia].
Qed.

(** ** writeChannel, unfolded *)

Lemma writeChannel_closed s sp ch d n :
  m_file s = false → writeChannel s sp ch d n = Some (false, s).
Proof. intros H. unfold writeChannel. by rewrite H. Qed.

Lemma writeChannel_open s sp ch d n :
  m_file s = true →
  writeChannel s sp ch d n =
  s1 ← prepared s sp n;
  bIndex ← findBlock (m_memBlocks s1) sp (length (m_memBlocks s1));
  if bIndex <? 0 then Some (false, s1)
  else
    blk ← own_get (m_memBlocks s1) bIndex;
    r ← writeLoop (S (length (m_memBlocks s1))) s1 ch d n
          (Z.of_nat (length (m_memBlocks s1)) - 1) bIndex 0
          (i32 (sp - getOffset blk)) (i32 (i32 (sp - getOffset blk) * m_nChannels s1)) 0;
    Some (true, set_currentBlock r.1 (arr_set (m_currentBlock r.1) ch (r.2 - 1))).
Proof.
  intros H. unfold writeChannel, prepared. rewrite H. simpl.
  destruct (if needsAllocation s sp n then _ else _) as [s1|]; [|done]. simpl.
  destruct (findBlock _ _ _) as [bIndex|]; [|done]. simpl.
  destruct (bIndex <? 0); [done|].
  destruct (own_get _ _) as [blk|]; [|done]. simpl.
  by destruct (writeLoop _ _ _ _ _ _ _ _ _ _ _) as [[s2 bi]|].
Qed.

(** What a call of [writeChannel] that returns leaves of the window: the state
    itself when the file is closed, else the window of [prepared] with the
    same offsets and sizes. *)
Lemma writeChannel_window s sp ch d n r s' :
  writeChannel s sp ch d n = Some (r, s') →
  s' = s ∨
  ∃ s1, prepared s sp n = Some s1 ∧ offsets s' = offsets s1 ∧
        m_samplesPerBlock s' = m_samplesPerBlock s1.
Proof.
  destruct (m_file s) eqn:Ef.
  2: { rewrite writeChannel_closed by done. intros [= <- <-]. by left. }
  rewrite writeChannel_open by done. intros Hw. right.
  destruct (prepared s sp n) as [s1|]; [|done]. simpl in Hw. exists s1. split; [done|].
  destruct (findBlock _ _ _) as [bIndex|]; [|done]. simpl in Hw.
  destruct (bIndex <? 0); [by simplify_eq|].
  destruct (own_get _ _) as [blk|]; [|done]. simpl in Hw.
  destruct (writeLoop _ _ _ _ _ _ _ _ _ _ _) as [[s2 bi]|] eqn:El; [|done].
  simpl in Hw. simplify_eq. apply writeLoop_frame in El as [].
  unfold offsets in *. simpl. done.
Qed.

(** ** Offset contiguity *)

Lemma contiguous_drop spb offs k : contiguous spb offs → contiguous spb (drop k offs).
Proof.
  intros H i o o'. rewrite !lookup_drop. replace (k + S i)%nat with (S (k + i)) by lia.
  apply H.
Qed.

Lemma contiguous_snoc spb offs o :
  contiguous spb offs → list.last offs = Some o → contiguous spb (offs ++ [u64 (o + spb)]).
Proof.
  intros H Hlast i o1 o2 H1 H2. rewrite last_lookup in Hlast.
  destruct (decide (S i < length offs)%nat).
  - rewrite lookup_app_l in H1, H2 by lia. by eapply H.
  - pose proof (lookup_lt_Some _ _ _ H2) as Hlt. rewrite length_app in Hlt. simpl in Hlt.
    assert (S i = length offs) as Heq by lia.
    rewrite lookup_app_l in H1 by lia.
    rewrite lookup_app_r in H2 by lia.
    replace (S i - length offs)%nat with O in H2 by lia.
    replace (pred (length offs)) with i in Hlast by lia.
    simpl in H2. congruence.
Qed.

Lemma contiguous_fresh spb blockSize n : ∀ bs lb,
  contiguous spb (getOffset <$> bs) → getLast bs = Some lb →
  contiguous spb (getOffset <$> (bs ++ freshBlocks n (getOffset lb) spb blockSize)).
Proof.
  induction n as [|n IH]; intros bs lb Hc Hlast; simpl.
  - by rewrite app_nil_r.
  - rewrite cons_middle, app_assoc.
    apply (IH (bs ++ [newFileBlock blockSize (u64 (getOffset lb + spb))])
              (newFileBlock blockSize (u64 (getOffset lb + spb)))).
    + rewrite fmap_app. simpl. apply contiguous_snoc; [done|].
      unfold getLast in Hlast. by rewrite fmap_last, Hlast.
    + unfold getLast. apply last_snoc.
Qed.

Lemma allocateBlocks_nonempty s si n s' :
  allocateBlocks s si n = Some s' → m_memBlocks s ≠ [] ∧ m_memBlocks s' ≠ [].
Proof.
  intros (lb & nb & Hlast & Hnb & ->)%allocateBlocks_Some. simpl. split.
  - intros Hnil. by rewrite Hnil, drop_nil in Hlast.
  - intros [Hnil _]%app_eq_nil. by rewrite Hnil in Hlast.
Qed.

Lemma allocateBlocks_contiguous s si n s' :
  allocateBlocks s si n = Some s' →
  contiguous (m_samplesPerBlock s) (offsets s) →
  contiguous (m_samplesPerBlock s') (offsets s').
Proof.
  intros (lb & nb & Hlast & Hnb & ->)%allocateBlocks_Some Hc. unfold offsets. simpl.
  apply contiguous_fresh; [|done]. rewrite fmap_drop. by apply contiguous_drop.
Qed.

Lemma prepared_empty s sp n : m_memBlocks s = [] → prepared s sp n = None.
Proof.
  intros Hnil. unfold prepared, needsAllocation. rewrite Hnil. simpl.
  destruct (allocateBlocks s sp n) as [s'|] eqn:E; [|done].
  apply allocateBlocks_nonempty in E as [E _]. done.
Qed.

Lemma prepared_nonempty s sp n s1 :
  prepared s sp n = Some s1 → m_memBlocks s ≠ [] ∧ m_memBlocks s1 ≠ [].
Proof.
  unfold prepared. destruct (needsAllocation s sp n) eqn:En.
  - apply allocateBlocks_nonempty.
  - intros [= <-]. unfold needsAllocation in En.
    destruct (getLast (m_memBlocks s)) eqn:El; [|done].
    split; intros Hnil; by rewrite Hnil in El.
Qed.

Lemma prepared_contiguous s sp n s1 :
  prepared s sp n = Some s1 →
  contiguous (m_samplesPerBlock s) (offsets s) →
  contiguous (m_samplesPerBlock s1) (offsets s1).
Proof.
  unfold prepared. destruct (needsAllocation s sp n).
  - apply allocateBlocks_contiguous.
  - by intros [= <-].
Qed.

Lemma offsets_nil s : offsets s = [] ↔ m_memBlocks s = [].
Proof. unfold offsets. by destruct (m_memBlocks s). Qed.

Lemma freshBlocks_range n : ∀ lo spb blockSize b,
  b ∈ freshBlocks n lo spb blockSize → 0 ≤ getOffset b < 2 ^ 64.
Proof.
  induction n as [|n IH]; intros lo spb blockSize b; simpl.
  - by intros ?%elem_of_nil.
  - intros [->|Hin]%elem_of_cons; [apply u64_range|by eapply IH].
Qed.

Lemma allocateBlocks_range s si n s' :
  allocateBlocks s si n = Some s' →
  inRange (offsets s) → inRange (offsets s') ∧ m_samplesPerBlock s' = m_samplesPerBlock s.
Proof.
  intros (lb & nb & Hlast & Hnb & ->)%allocateBlocks_Some Hr. unfold offsets. simpl.
  split; [|done]. intros o (b & -> & Hb)%list_elem_of_fmap.
  apply elem_of_app in Hb as [Hb|Hb].
  - apply Hr. apply list_elem_of_fmap. exists b. split; [done|].
    apply list_elem_of_lookup in Hb as [i Hi]. rewrite lookup_drop in Hi.
    by eapply list_elem_of_lookup_2.
  - by eapply freshBlocks_range.
Qed.

Lemma prepared_range s sp n s1 :
  prepared s sp n = Some s1 →
  inRange (offsets s) → inRange (offsets s1) ∧ m_samplesPerBlock s1 = m_samplesPerBlock s.
Proof.
  unfold prepared. destruct (needsAllocation s sp n).
  - apply allocateBlocks_range.
  - by intros [= <-].
Qed.

(** One step keeps the offsets contiguous and within [uint64], unless it is a
    second successful [openFile]. *)
Lemma step_contiguous s o s' :
  step s o = Some s' →
  (isOpen o = true → m_memBlocks s = []) →
  contiguous (m_samplesPerBlock s) (offsets s) → inRange (offsets s) →
  contiguous (m_samplesPerBlock s') (offsets s') ∧ inRange (offsets s') ∧
  m_samplesPerBlock s' = m_samplesPerBlock s ∧
  (m_memBlocks s ≠ [] → m_memBlocks s' ≠ []).
Proof.
  destruct o as [[|]|sp ch d n|si n]; simpl; intros Hstep Hfirst Hc Hr.
  - rewrite (Hfirst eq_refl) in Hstep. simplify_eq. unfold offsets. simpl.
    split; [|split; [|done]].
    + by intros [|i] o o' H1 H2.
    + by intros o ->%list_elem_of_singleton.
  - by simplify_eq.
  - destruct (writeChannel s sp ch d n) as [[r s1]|] eqn:Ew; [|done].
    simpl in Hstep. simplify_eq.
    apply writeChannel_window in Ew as [->|(s1 & Hp & Ho & Hspb)]; [done|].
    destruct (prepared_nonempty _ _ _ _ Hp) as [Hne Hne1].
    destruct (prepared_range _ _ _ _ Hp Hr) as [Hr1 Hs1].
    rewrite Ho, Hspb. split; [by eapply prepared_contiguous|].
    split; [done|]. split; [done|]. intros _ Hnil%offsets_nil.
    rewrite Ho in Hnil. by apply offsets_nil in Hnil.
  - destruct (allocateBlocks_nonempty _ _ _ _ Hstep) as [Hne Hne1].
    destruct (allocateBlocks_range _ _ _ _ Hstep Hr) as [Hr1 Hs1].
    split; [by eapply allocateBlocks_contiguous|]. done.
Qed.

Lemma step_nonempty s o s' :
  step s o = Some s' →
  m_memBlocks s' = [] ↔ m_memBlocks s = [] ∧ isOpen o = false.
Proof.
  destruct o as [[|]|sp ch d n|si n]; simpl; intros Hstep.
  - simplify_eq. simpl. split; [by intros [_ ?]%app_eq_nil|by intros [_ ?]].
  - simplify_eq. simpl. tauto.
  - destruct (writeChannel s sp ch d n) as [[r s1]|] eqn:Ew; [|done].
    simpl in Hstep. simplify_eq.
    apply writeChannel_window in Ew as [->|(s1 & Hp & Ho & Hspb)]; [tauto|].
    destruct (prepared_nonempty _ _ _ _ Hp) as [Hne Hne1].
    split; [|tauto]. intros Hnil%offsets_nil. rewrite Ho in Hnil.
    by apply offsets_nil in Hnil.
  - destruct (allocateBlocks_nonempty _ _ _ _ Hstep) as [Hne Hne1]. tauto.
Qed.

Lemma run_contiguous ops : ∀ s s',
  run s ops = Some s' →
  (opens ops ≤ 1)%nat → (m_memBlocks s ≠ [] → opens ops = 0%nat) →
  contiguous (m_samplesPerBlock s) (offsets s) → inRange (offsets s) →
  contiguous (m_samplesPerBlock s') (offsets s') ∧ inRange (offsets s') ∧
  m_samplesPerBlock s' = m_samplesPerBlock s.
Proof.
  induction ops as [|o ops IH]; intros s s' Hrun Hle Hopen Hc Hr; simpl in *.
  - by simplify_eq.
  - destruct (step s o) as [s1|] eqn:Es; [|done]. simpl in Hrun.
    destruct (step_contiguous _ _ _ Es) as (Hc1 & Hr1 & Hs1 & Hne1); [|done|done|].
    { intros Ho. rewrite Ho in Hopen.
      destruct (m_memBlocks s) as [|b bs] eqn:Eb; [done|]. by specialize (Hopen ltac:(done)). }
    destruct (IH _ _ Hrun) as (Hc' & Hr' & Hs'); [lia| |done|done|].
    + intros Hne. apply (step_nonempty _ _ _) in Es.
      destruct (isOpen o) eqn:Eo; [lia|].
      destruct (m_memBlocks s) as [|b bs] eqn:Eb.
      * destruct Hne. apply Es. done.
      * specialize (Hopen ltac:(done)). lia.
    + split; [done|]. split; [done|]. congruence.
Qed.

Lemma run_nonempty ops : ∀ s s',
  run s ops = Some s' →
  m_memBlocks s' = [] ↔ m_memBlocks s = [] ∧ opens ops = 0%nat.
Proof.
  induction ops as [|o ops IH]; intros s s' Hrun; simpl in *.
  - simplify_eq. tauto.
  - destruct (step s o) as [s1|] eqn:Es; [|done]. simpl in Hrun.
    rewrite (IH _ _ Hrun), (step_nonempty _ _ _ Es).
    destruct (isOpen o); split; intros; destruct_and?; repeat split; done || lia.
Qed.

Lemma contiguous_nth spb offs : 
  contiguous spb offs → inRange offs →
  ∀ (i : nat) o o0, offs !! 0%nat = Some o0 → offs !! i = Some o →
  o = u64 (o0 + Z.of_nat i * spb).
Proof.
  intros Hc Hr i. induction i as [|i IH]; intros o o0 H0 Hi.
  - simplify_eq. rewrite Z.add_0_r. symmetry. apply u64_id, Hr.
    by eapply list_elem_of_lookup_2.
  - destruct (lookup_lt_is_Some_2 offs i) as [oi Hoi].
    { apply lookup_lt_Some in Hi. lia. }
    rewrite (Hc _ _ _ Hoi Hi), (IH _ _ H0 Hoi). unfold u64. zdiv.
Qed.

Lemma destructor_snoc s bs b :
  m_memBlocks s = bs ++ [b] →
  destructor s =
  Some (partialFlush (destroyBlocks (backing s) bs) b (u64 (m_lastBlockFill s * m_nChannels s))).
Proof.
  intros Hb. unfold destructor. rewrite removeLoop_spec, Hb. simpl.
  rewrite length_app. simpl.
  replace (Z.to_nat (Z.of_nat (length bs + 1) - 1)) with (length bs) by lia.
  rewrite take_app_length, drop_app_length. done.
Qed.

Lemma destructor_nil s : m_memBlocks s = [] → destructor s = None.
Proof. intros Hb. unfold destructor. rewrite removeLoop_spec, Hb. done. Qed.

(** ** Well-formed windows *)

Lemma firstOffset_offsets s : firstOffset s = default 0 (list.head (offsets s)).
Proof. unfold firstOffset, offsets. by destruct (m_memBlocks s). Qed.

Lemma SameWindow_tailEnd s s' : SameWindow s s' → tailEnd s' = tailEnd s.
Proof.
  intros H. unfold tailEnd. rewrite (SameWindow_length _ _ H), !firstOffset_offsets.
  destruct H. congruence.
Qed.

Lemma SameWindow_BlocksOk s s' : SameWindow s s' → BlocksOk s → BlocksOk s'.
Proof.
  intros Hs [].
  pose proof (SameWindow_tailEnd _ _ Hs) as Ht.
  pose proof (SameWindow_length _ _ Hs) as Hl.
  assert (firstOffset s' = firstOffset s) as Hf.
  { rewrite !firstOffset_offsets. destruct Hs. congruence. }
  destruct Hs. split; try congruence.
  - intros Hnil. rewrite Hnil in Hl. by destruct (m_memBlocks s).
  - intros i b Hb.
    assert (((length ∘ getData) <$> m_memBlocks s') !! i = Some (length (getData b))) as Hi
      by (by rewrite list_lookup_fmap, Hb).
    rewrite same_sizes0, list_lookup_fmap in Hi.
    destruct (m_memBlocks s !! i) as [b0|] eqn:Eb0; [|done]. simpl in Hi.
    simplify_eq. rewrite same_blockSize0, <-(ok_data0 i b0 Eb0). congruence.
  - intros i b Hb.
    assert (offsets s' !! i = Some (getOffset b)) as Hi
      by (unfold offsets; by rewrite list_lookup_fmap, Hb).
    rewrite same_offsets0 in Hi. unfold offsets in Hi. rewrite list_lookup_fmap in Hi.
    destruct (m_memBlocks s !! i) as [b0|] eqn:Eb0; [|done]. simpl in Hi.
    simplify_eq. rewrite Hf, same_spb0, <-(ok_offsets0 i b0 Eb0). congruence.
Qed.

Lemma BlocksOk_last s :
  BlocksOk s →
  ∃ lb, getLast (m_memBlocks s) = Some lb ∧
        getOffset lb = tailEnd s - m_samplesPerBlock s.
Proof.
  intros []. unfold getLast. rewrite last_lookup.
  destruct (m_memBlocks s) as [|b0 bs] eqn:Eb; [done|].
  destruct (lookup_lt_is_Some_2 (b0 :: bs) (pred (length (b0 :: bs)))) as [lb Hlb].
  { simpl. lia. }
  exists lb. split; [done|]. rewrite (ok_offsets0 _ _ Hlb). unfold tailEnd.
  rewrite Eb. simpl length. lia.
Qed.

Lemma BlocksOk_tailEnd s : BlocksOk s → m_samplesPerBlock s ≤ tailEnd s.
Proof.
  intros []. unfold tailEnd. destruct (m_memBlocks s); [done|]. simpl length. nia.
Qed.

Lemma BlocksOk_first s : BlocksOk s → firstOffset s + m_samplesPerBlock s ≤ tailEnd s.
Proof.
  intros []. unfold tailEnd. destruct (m_memBlocks s); [done|]. simpl length. nia.
Qed.

Lemma needsAllocation_spec s sp n :
  BlocksOk s → 0 ≤ sp + n < 2 ^ 64 →
  needsAllocation s sp n = bool_decide (tailEnd s < sp + n).
Proof.
  intros Hok Hsp. destruct (BlocksOk_last s Hok) as (lb & Hlb & Hoff).
  pose proof (BlocksOk_tailEnd s Hok). destruct Hok.
  unfold needsAllocation. rewrite Hlb, Hoff.
  replace (tailEnd s - m_samplesPerBlock s + m_samplesPerBlock s) with (tailEnd s) by lia.
  rewrite !u64_id by lia. case_bool_decide; lia.
Qed.

(** ** The eviction count *)


Lemma minBlockLoop_cases n : ∀ i cur acc,
  minBlockLoop n i cur acc = acc ∨ ∃ j, minBlockLoop n i cur acc = u32 (arr_get cur j).
Proof.
  induction n as [|n IH]; intros i cur acc; simpl; [by left|].
  destruct (IH (i + 1) cur (if u32 (arr_get cur i) <? acc then u32 (arr_get cur i) else acc))
    as [->|?]; [|by right].
  case_match; [right; by exists i|by left].
Qed.


(** ** The number of new blocks *)

(** In range, line 176 gives the quotient of the shortfall by the block size,
    plus one. *)
Lemma newBlockCount_value spb lo si n :
  1 ≤ spb → 0 ≤ lo → lo + spb < 2 ^ 64 → 0 ≤ si → 0 ≤ n →
  lo + spb < si + n → si + n - (lo + spb) < 2 ^ 31 - 1 → si + n < 2 ^ 64 →
  newBlockCount spb lo si n = Some ((si + n - (lo + spb)) / spb + 1).
Proof.
  intros Hspb Hlo Htail Hsi Hn Hshort Hreach Hroom. unfold newBlockCount.
  rewrite (u64_id (lo + spb - 1)) by lia.
  assert (u64 (n - u64 (lo + spb - 1 - si)) = si + n - (lo + spb) + 1) as ->.
  { unfold u64. zdiv. }
  rewrite (u64_id spb) by lia. destruct (spb =? 0) eqn:E; [lia|].
  rewrite u64_id by lia.
  replace (si + n - (lo + spb) + 1 + spb - 1) with ((si + n - (lo + spb)) + 1 * spb) by lia.
  rewrite Z.div_add by lia.
  assert (0 ≤ (si + n - (lo + spb)) / spb ≤ si + n - (lo + spb)) as Hq.
  { split; [apply Z.div_pos; lia|]. apply Z.div_le_upper_bound; nia. }
  rewrite i32_id by lia. done.
Qed.

Lemma freshBlocks_length n lo spb blockSize : length (freshBlocks n lo spb blockSize) = n.
Proof. revert lo. induction n as [|n IH]; intros lo; simpl; [done|]. by rewrite IH. Qed.

Lemma freshBlocks_lookup n : ∀ lo spb blockSize (j : nat) b,
  0 ≤ lo → 0 ≤ spb → lo + Z.of_nat n * spb < 2 ^ 64 →
  freshBlocks n lo spb blockSize !! j = Some b →
  b = newFileBlock blockSize (lo + (Z.of_nat j + 1) * spb).
Proof.
  induction n as [|n IH]; intros lo spb blockSize j b Hlo Hspb Hwrap; simpl; [done|].
  rewrite (u64_id (lo + spb)) by nia. destruct j as [|j]; simpl.
  - intros [= <-]. f_equal. lia.
  - intros Hj. apply IH in Hj; [|lia|lia|nia]. rewrite Hj. f_equal. lia.
Qed.

(** ** allocateBlocks on a well-formed window *)

Lemma getLast_drop (bs : list FileBlock) k :
  (k < length bs)%nat → getLast (drop k bs) = getLast bs.
Proof.
  intros Hk. unfold getLast. rewrite !last_lookup, lookup_drop, length_drop. f_equal. lia.
Qed.

Lemma allocateBlocks_Some_evicted s si n s' :
  allocateBlocks s si n = Some s' → (evicted s < length (m_memBlocks s))%nat.
Proof.
  intros (lb & nb & Hlast & _)%allocateBlocks_Some.
  destruct (decide (evicted s < length (m_memBlocks s))%nat) as [|Hge]; [done|].
  by rewrite drop_ge in Hlast by lia.
Qed.

Lemma allocateBlocks_ok s sp n :
  BlocksOk s → (evicted s < length (m_memBlocks s))%nat → 0 ≤ sp → 0 ≤ n →
  tailEnd s < sp + n → sp + n - tailEnd s < 2 ^ 31 - 1 →
  sp + n + m_samplesPerBlock s < 2 ^ 64 →
  ∃ s1,
    allocateBlocks s sp n = Some s1 ∧ BlocksOk s1 ∧
    sp + n ≤ tailEnd s1 ∧
    firstOffset s1 = firstOffset s + Z.of_nat (evicted s) * m_samplesPerBlock s ∧
    (evicted s < length (m_memBlocks s))%nat ∧
    m_file s1 = m_file s ∧ m_nChannels s1 = m_nChannels s ∧
    m_samplesPerBlock s1 = m_samplesPerBlock s ∧
    (∀ b, b ∈ m_memBlocks s1 →
          b ∈ m_memBlocks s ∨ b = newFileBlock (m_blockSize s) (getOffset b)).
Proof.
  intros Hok Hk Hsp Hn Hshort Hreach Hroom.
  destruct (BlocksOk_last s Hok) as (lb & Hlb & Hoff).
  pose proof (BlocksOk_tailEnd s Hok) as Hte.
  destruct Hok.
  remember (m_samplesPerBlock s) as spb eqn:Espb.
  remember (sp + n - tailEnd s) as sf eqn:Esf.
  assert (newBlockCount spb (getOffset lb) sp n = Some (sf / spb + 1)) as Hnb.
  { rewrite newBlockCount_value; try lia.
    replace (sp + n - (getOffset lb + spb)) with sf by lia. done. }
  assert (0 ≤ sf / spb) as Hq by (apply Z.div_pos; lia).
  assert (sf < (sf / spb + 1) * spb ≤ sf + spb) as Hcover.
  { pose proof (Z.mul_div_le sf spb ltac:(lia)).
    pose proof (Z.mul_succ_div_gt sf spb ltac:(lia)). nia. }
  remember (sf / spb + 1) as nb eqn:Enb.
  remember (mkSBF (m_file s) (destroyBlocks (backing s) (take (evicted s) (m_memBlocks s)))
           (m_nChannels s) spb (m_blockSize s)
           (drop (evicted s) (m_memBlocks s) ++
              freshBlocks (Z.to_nat nb) (getOffset lb) spb (m_blockSize s))
           (shiftLoop (Z.to_nat (m_nChannels s)) 0 (m_currentBlock s) (minBlock s))
           (if 0 <? nb then 0 else m_lastBlockFill s)) as s1 eqn:Es1.
  assert (allocateBlocks s sp n = Some s1) as Halloc.
  { apply allocateBlocks_Some. exists lb, nb. rewrite getLast_drop by done.
    rewrite <-Espb. done. }
  destruct (lookup_lt_is_Some_2 (m_memBlocks s) (evicted s) Hk) as [bk Hbk].
  assert (m_memBlocks s1 = drop (evicted s) (m_memBlocks s) ++
            freshBlocks (Z.to_nat nb) (getOffset lb) spb (m_blockSize s)) as Hbs
    by (by rewrite Es1).
  assert (m_samplesPerBlock s1 = spb) as Hspb1 by (by rewrite Es1).
  assert (firstOffset s1 = firstOffset s + Z.of_nat (evicted s) * spb) as Hfirst.
  { unfold firstOffset at 1. rewrite Hbs, head_lookup, lookup_app_l.
    2: { rewrite length_drop. lia. }
    rewrite lookup_drop, Nat.add_0_r, Hbk. simpl. by apply ok_offsets0. }
  assert (tailEnd s1 = tailEnd s + nb * spb) as Htail.
  { unfold tailEnd at 1. rewrite Hfirst, Hbs, Hspb1.
    rewrite length_app, length_drop, freshBlocks_length. unfold tailEnd. nia. }
  assert (∀ (i : nat) b, m_memBlocks s1 !! i = Some b →
            (m_memBlocks s !! (evicted s + i)%nat = Some b) ∨
            (b = newFileBlock (m_blockSize s) (firstOffset s1 + Z.of_nat i * spb))) as Hcases.
  { intros i b. rewrite Hbs. intros Hi.
    destruct (decide (i < length (drop (evicted s) (m_memBlocks s)))%nat) as [Hlt|Hge].
    - rewrite lookup_app_l, lookup_drop in Hi by done. by left.
    - rewrite lookup_app_r in Hi by lia. right.
      apply freshBlocks_lookup in Hi; [|lia|lia|unfold tailEnd in *; nia].
      rewrite Hi. f_equal. rewrite Hfirst, Hoff. rewrite length_drop in *.
      unfold tailEnd. nia. }
  exists s1. split; [done|]. split; [|split; [lia|]].
  - assert (m_nChannels s1 = m_nChannels s) as HnCh1 by (by rewrite Es1).
    assert (m_blockSize s1 = m_blockSize s) as Hbsz1 by (by rewrite Es1).
    split; rewrite ?Hspb1, ?HnCh1, ?Hbsz1.
    + done.
    + lia.
    + lia.
    + lia.
    + rewrite Hbs. intros [Hnil _]%app_eq_nil. apply (f_equal length) in Hnil.
      rewrite length_drop in Hnil. simpl in Hnil. lia.
    + intros i b Hi.
      destruct (Hcases i b Hi) as [Hold| ->]; [by eapply ok_data0|].
      simpl. rewrite length_replicate. lia.
    + lia.
    + intros i b Hi. destruct (Hcases i b Hi) as [Hold| ->]; [|done].
      rewrite (ok_offsets0 _ _ Hold), Hfirst. lia.
    + lia.
  - split; [done|]. split; [done|]. split; [by rewrite Es1|]. split; [by rewrite Es1|].
    split; [done|].
    intros b [i Hi]%list_elem_of_lookup. destruct (Hcases i b Hi) as [Hold| ->].
    + left. by eapply list_elem_of_lookup_2.
    + right. done.
Qed.

Lemma prepared_ok s sp ch d n :
  BlocksOk s → WriteOk s sp ch d n →
  (needsAllocation s sp n = true → (evicted s < length (m_memBlocks s))%nat) →
  ∃ s1,
    prepared s sp n = Some s1 ∧ BlocksOk s1 ∧
    sp + n ≤ tailEnd s1 ∧
    firstOffset s ≤ firstOffset s1 ∧ firstOffset s1 < tailEnd s ∧
    m_file s1 = m_file s ∧ m_nChannels s1 = m_nChannels s ∧
    m_samplesPerBlock s1 = m_samplesPerBlock s ∧
    (needsAllocation s sp n = false → s1 = s) ∧
    (∀ b, b ∈ m_memBlocks s1 →
          b ∈ m_memBlocks s ∨ b = newFileBlock (m_blockSize s) (getOffset b)).
Proof.
  intros Hok [Hch Hn Hd Hsp Hreach Hroom] Hev.
  pose proof (BlocksOk_tailEnd s Hok) as Hte.
  pose proof (ok_spb s Hok) as Hspb. pose proof (ok_first s Hok) as Hfirst.
  unfold prepared. rewrite needsAllocation_spec in * by (done || lia).
  case_bool_decide as Hshort.
  - specialize (Hev eq_refl).
    destruct (allocateBlocks_ok s sp n Hok Hev)
      as (s1 & Ha & Hok1 & Hcov & Hf1 & Hk & H1 & H2 & H3 & H4); try lia.
    exists s1. split; [done|]. split; [done|]. split; [done|].
    split; [nia|]. split; [unfold tailEnd; nia|]. done.
  - pose proof (BlocksOk_first s Hok).
    exists s. split; [done|]. split; [done|]. split; [lia|]. split; [lia|].
    split; [lia|]. repeat split; auto.
Qed.

(** ** The backward scan *)

Lemma findBlock_scan bs sp n :
  (n ≤ length bs)%nat →
  ∃ idx,
    findBlock bs sp n = Some idx ∧
    ((idx = -1 ∧ ∀ (i : nat) b, (i < n)%nat → bs !! i = Some b → sp < getOffset b) ∨
     (0 ≤ idx < Z.of_nat n ∧
      ∃ b, bs !! Z.to_nat idx = Some b ∧ getOffset b ≤ sp ∧
           ∀ (i : nat) b', (Z.to_nat idx < i < n)%nat → bs !! i = Some b' → sp < getOffset b')).
Proof.
  induction n as [|n IH]; intros Hn; simpl.
  - exists (-1). split; [done|]. left. split; [done|]. intros; lia.
  - destruct (lookup_lt_is_Some_2 bs n) as [b Hb]; [lia|]. rewrite Hb. simpl.
    destruct (getOffset b <=? sp) eqn:E.
    + exists (Z.of_nat n). split; [done|]. right. split; [lia|].
      exists b. rewrite Nat2Z.id. split; [done|]. split; [lia|]. intros; lia.
    + destruct IH as (idx & Hf & Hcases); [lia|]. exists idx. split; [done|].
      destruct Hcases as [[-> Hall]|(Hidx & b0 & Hb0 & Hle & Hall)].
      * left. split; [done|]. intros i b' Hi Hb'.
        destruct (decide (i = n)) as [->|]; [simplify_eq; lia|]. eapply Hall; [|done]. lia.
      * right. split; [lia|]. exists b0. split; [done|]. split; [done|].
        intros i b' Hi Hb'.
        destruct (decide (i = n)) as [->|]; [simplify_eq; lia|]. eapply Hall; [|done]. lia.
Qed.

Lemma findBlock_ok s sp :
  BlocksOk s →
  ∃ idx,
    findBlock (m_memBlocks s) sp (length (m_memBlocks s)) = Some idx ∧
    (sp < firstOffset s → idx = -1) ∧
    (firstOffset s ≤ sp →
       0 ≤ idx < Z.of_nat (length (m_memBlocks s)) ∧
       firstOffset s + idx * m_samplesPerBlock s ≤ sp ∧
       (sp < firstOffset s + (idx + 1) * m_samplesPerBlock s ∨
        idx = Z.of_nat (length (m_memBlocks s)) - 1)).
Proof.
  intros Hok.
  destruct (findBlock_scan (m_memBlocks s) sp (length (m_memBlocks s))) as (idx & Hf & Hcases);
    [done|].
  exists idx. split; [done|]. destruct Hok.
  destruct (m_memBlocks s) as [|b0 bs] eqn:Eb; [done|]. rewrite <-Eb in *.
  assert (m_memBlocks s !! 0%nat = Some b0) as Hb0 by (by rewrite Eb).
  pose proof (ok_offsets0 _ _ Hb0) as Ho0.
  assert (0 < length (m_memBlocks s))%nat as Hlen by (rewrite Eb; simpl; lia).
  destruct Hcases as [[-> Hall]|(Hidx & b & Hb & Hle & Hall)].
  - split; [done|]. intros Hsp. specialize (Hall _ _ Hlen Hb0). lia.
  - pose proof (ok_offsets0 _ _ Hb) as Ho. rewrite Z2Nat.id in Ho by lia.
    split; [intros; nia|]. intros Hsp. split; [lia|]. split; [lia|].
    destruct (decide (idx = Z.of_nat (length (m_memBlocks s)) - 1)) as [|Hne]; [by right|].
    left. destruct (lookup_lt_is_Some_2 (m_memBlocks s) (S (Z.to_nat idx))) as [b' Hb']; [lia|].
    pose proof (ok_offsets0 _ _ Hb') as Ho'.
    assert (sp < getOffset b') by (eapply Hall; [|done]; lia). nia.
Qed.

(** ** The write loop on a well-formed window *)

Lemma row_unique spb j r j' r' :
  0 ≤ r < spb → 0 ≤ r' < spb → j * spb + r = j' * spb + r' → j = j' ∧ r = r'.
Proof. intros Hr Hr' Heq. assert (j = j') by nia. subst. lia. Qed.

Lemma iterState_cell s bi lbi blk bd pos (j : nat) r c :
  own_get (m_memBlocks s) bi = Some blk →
  cell (iterState s bi lbi blk bd pos) j r c =
  if decide (j = Z.to_nat bi) then bd !! Z.to_nat (r * m_nChannels s + c) else cell s j r c.
Proof.
  intros [Hbi Hblk]%own_get_Some. pose proof (lookup_lt_Some _ _ _ Hblk) as Hlt.
  unfold cell, iterState.
  destruct ((bi =? lbi) && _); simpl; rewrite list_lookup_insert;
    repeat case_decide; simpl; try done; lia.
Qed.

Lemma SameWindow_firstOffset s s' : SameWindow s s' → firstOffset s' = firstOffset s.
Proof. intros []. rewrite !firstOffset_offsets. congruence. Qed.

Lemma writeLoop_spec ch data n sp fuel : ∀ s lbi bi w si smp di,
  BlocksOk s →
  0 ≤ ch < m_nChannels s → 0 ≤ w ≤ n → n ≤ Z.of_nat (length data) → n < 2 ^ 31 →
  0 ≤ bi → smp = si * m_nChannels s → di = w →
  (w < n → 0 ≤ si < m_samplesPerBlock s ∧
           firstOffset s + bi * m_samplesPerBlock s + si = sp + w ∧
           sp + n ≤ tailEnd s) →
  Z.of_nat (length (m_memBlocks s)) - bi < Z.of_nat fuel →
  ∃ s' bi',
    writeLoop fuel s ch data n lbi bi w si smp di = Some (s', bi') ∧
    SameWindow s s' ∧
    ∀ (j : nat) r c, 0 ≤ r < m_samplesPerBlock s → 0 ≤ c < m_nChannels s →
      cell s' j r c =
      if decide (c = ch ∧
                 sp + w ≤ firstOffset s + Z.of_nat j * m_samplesPerBlock s + r < sp + n)
      then data !! Z.to_nat (firstOffset s + Z.of_nat j * m_samplesPerBlock s + r - sp)
      else cell s j r c.
Proof.
  induction fuel as [|fuel IH]; intros s lbi bi w si smp di Hok Hch Hw Hdata Hn Hbi -> -> Hinv Hfuel.
  all: destruct (decide (w < n)) as [Hlt|Hge].
  all: try (rewrite writeLoop_done by lia; exists s, bi; split; [done|];
            split; [apply SameWindow_refl|]; intros j r c Hr Hc; case_decide; [lia|done]).
  all: destruct (Hinv Hlt) as (Hsi & Hpos & Hcov).
  all: pose proof (ok_spb s Hok) as Hspb; pose proof (ok_nChannels s Hok) as HnCh.
  all: pose proof (ok_int s Hok) as Hint.
  all: assert (bi < Z.of_nat (length (m_memBlocks s))) as Hbilt by (unfold tailEnd in Hcov; nia).
  { lia. }
  rewrite writeLoop_iter by done.
  destruct (lookup_lt_is_Some_2 (m_memBlocks s) (Z.to_nat bi)) as [blk Hblk]; [lia|].
  assert (own_get (m_memBlocks s) bi = Some blk) as Hown by (by apply own_get_Some).
  rewrite Hown. simpl.
  rewrite (i32_id (n - w)), (i32_id (m_samplesPerBlock s - si)), jmin_min by nia.
  remember (Z.min (n - w) (m_samplesPerBlock s - si)) as stw eqn:Estw.
  assert (Z.of_nat (length (getData blk)) = m_nChannels s * m_samplesPerBlock s) as Hlen.
  { rewrite <-(ok_blockSize s Hok). by eapply ok_data. }
  destruct (copyLoop_spec (Z.to_nat stw) 0 (getData blk) (si * m_nChannels s) ch
              (m_nChannels s) data w) as (bd & Hcopy & Hin & Hout); try nia.
  rewrite Hcopy. simpl. rewrite Z2Nat.id by lia.
  rewrite (i32_id (w + stw)), (i32_id (si + stw)) by nia.
  set (s1 := iterState s bi lbi blk bd (u64 (si + stw))).
  assert (SameWindow s s1) as Hsame.
  { apply iterState_same; [done|]. by eapply copyLoop_length. }
  pose proof (SameWindow_BlocksOk _ _ Hsame Hok) as Hok1.
  pose proof (SameWindow_firstOffset _ _ Hsame) as Hfo.
  pose proof (SameWindow_tailEnd _ _ Hsame) as Hte.
  pose proof (SameWindow_length _ _ Hsame) as Hlen1.
  pose proof (same_spb _ _ Hsame) as Hspb1.
  pose proof (same_nChannels _ _ Hsame) as HnCh1.
  destruct (IH s1 lbi (bi + 1) (w + stw) 0 0 (w + stw)) as (s' & bi' & Hrun & Hsame' & Hcells);
    try (done || lia).
  exists s', bi'. split; [done|]. split; [by eapply SameWindow_trans|].
  intros j r c Hr Hc. rewrite Hcells by (rewrite ?Hspb1, ?HnCh1; done).
  rewrite Hfo, Hspb1. subst s1. rewrite iterState_cell by done.
  set (x := firstOffset s + Z.of_nat j * m_samplesPerBlock s + r).
  destruct (decide (j = Z.to_nat bi)) as [Hj|Hj].
  - assert (x = sp + w + (r - si)) as Hx by (subst x; nia).
    destruct (decide (c = ch ∧ si ≤ r < si + stw)) as [[-> Hrow]|Hnot].
    + rewrite decide_False by lia. rewrite decide_True by lia.
      specialize (Hin (r - si) ltac:(lia)).
      replace (si * m_nChannels s + ch + (0 + (r - si)) * m_nChannels s)
        with (r * m_nChannels s + ch) in Hin by nia.
      rewrite Hin. f_equal. lia.
    + rewrite Hout.
      2: { intros j' Hj' Heq. apply Hnot.
           assert (r = si + j' ∧ c = ch) as [-> ->]; [|lia].
           rewrite Z2Nat.id in Heq by nia.
           destruct (row_unique (m_nChannels s) r c (si + j') ch) as [? ?]; try lia. }
      case_decide as H1; case_decide as H2; try lia.
      unfold cell. by rewrite Hj, Hblk.
  - assert (¬ (sp + w ≤ x < sp + w + stw)) as Hout'.
    { intros Hx. apply Hj.
      destruct (row_unique (m_samplesPerBlock s) (Z.of_nat j) r bi (x - (sp + w) + si));
        subst x; lia. }
    case_decide as H1; case_decide as H2; try done; lia.
Qed.

(** ** writeChannel on a well-formed window *)


Lemma prepared_Some_evicted s sp n s1 :
  prepared s sp n = Some s1 →
  needsAllocation s sp n = true → (evicted s < length (m_memBlocks s))%nat.
Proof.
  unfold prepared. intros Hp Hn. rewrite Hn in Hp. by eapply allocateBlocks_Some_evicted.
Qed.

Lemma writeChannel_Some_evicted s sp ch d n r s' :
  m_file s = true → writeChannel s sp ch d n = Some (r, s') →
  needsAllocation s sp n = true → (evicted s < length (m_memBlocks s))%nat.
Proof.
  intros Hopen Hres. rewrite writeChannel_open in Hres by done.
  destruct (prepared s sp n) as [s1|] eqn:Hp; [|done]. by eapply prepared_Some_evicted.
Qed.

Lemma writeChannel_ok s sp ch d n :
  BlocksOk s → WriteOk s sp ch d n → m_file s = true →
  (needsAllocation s sp n = true → (evicted s < length (m_memBlocks s))%nat) →
  ∃ s1 idx,
    prepared s sp n = Some s1 ∧ BlocksOk s1 ∧
    findBlock (m_memBlocks s1) sp (length (m_memBlocks s1)) = Some idx ∧
    (sp < firstOffset s1 → idx = -1 ∧ writeChannel s sp ch d n = Some (false, s1)) ∧
    (firstOffset s1 ≤ sp →
       0 ≤ idx < Z.of_nat (length (m_memBlocks s1)) ∧
       ∃ s2 bi,
         writeChannel s sp ch d n =
           Some (true, set_currentBlock s2 (arr_set (m_currentBlock s2) ch (bi - 1))) ∧
         SameWindow s1 s2 ∧
         (n = 0 → s2 = s1 ∧ bi = idx) ∧
         ∀ (j : nat) r c, 0 ≤ r < m_samplesPerBlock s1 → 0 ≤ c < m_nChannels s1 →
           cell s2 j r c =
           if decide (c = ch ∧
                      sp ≤ firstOffset s1 + Z.of_nat j * m_samplesPerBlock s1 + r < sp + n)
           then d !! Z.to_nat (firstOffset s1 + Z.of_nat j * m_samplesPerBlock s1 + r - sp)
           else cell s1 j r c).
Proof.
  intros Hw Hwr Hopen Hev.
  destruct (prepared_ok s sp ch d n Hw Hwr Hev)
    as (s1 & Hprep & Hok1 & Hcov & Hf1 & Hf2 & Hfile & HnCh & Hspb & _).
  destruct (findBlock_ok s1 sp Hok1) as (idx & Hfind & Hstale & Hfound).
  destruct Hwr as [Hch Hn Hd Hsp Hreach Hroom].
  exists s1, idx. split; [done|]. split; [done|]. split; [done|].
  rewrite writeChannel_open, Hprep by done. simpl. rewrite Hfind. simpl. split.
  - intros Hlt. rewrite (Hstale Hlt). done.
  - intros Hge. destruct (Hfound Hge) as (Hidx & Hlo & Hhi). split; [done|].
    destruct (idx <? 0) eqn:E; [lia|].
    destruct (lookup_lt_is_Some_2 (m_memBlocks s1) (Z.to_nat idx)) as [blk Hblk]; [lia|].
    assert (own_get (m_memBlocks s1) idx = Some blk) as Hown
      by (apply own_get_Some; split; [lia|done]).
    pose proof (ok_offsets s1 Hok1 _ _ Hblk) as Hoff. rewrite Z2Nat.id in Hoff by lia.
    pose proof (ok_spb s1 Hok1) as Hspb1. pose proof (ok_nChannels s1 Hok1) as HnCh1.
    pose proof (ok_int s1 Hok1) as Hint.
    assert (0 ≤ sp - getOffset blk ≤ m_samplesPerBlock s1) as Hsi.
    { unfold tailEnd in Hcov. nia. }
    rewrite Hown. simpl.
    rewrite (i32_id (sp - getOffset blk)) by nia.
    rewrite (i32_id ((sp - getOffset blk) * m_nChannels s1)) by nia.
    destruct (writeLoop_spec ch d n sp (S (length (m_memBlocks s1))) s1
                (Z.of_nat (length (m_memBlocks s1)) - 1) idx 0 (sp - getOffset blk)
                ((sp - getOffset blk) * m_nChannels s1) 0)
      as (s2 & bi & Hrun & Hsame & Hcells); try (done || lia).
    { intros Hpos. unfold tailEnd in Hcov. split; [nia|]. split; [lia|done]. }
    rewrite Hrun. simpl. exists s2, bi. split; [done|]. split; [done|]. split.
    + intros ->. rewrite writeLoop_done in Hrun by lia. by simplify_eq.
    + intros j r c Hr Hc. rewrite Hcells by done. rewrite Z.add_0_r. done.
Qed.

(** ** The backing stream does not steer the window *)

Lemma allocateBlocks_backing s f si n :
  allocateBlocks (set_backing s f) si n =
  (λ s1, set_backing s1 (destroyBlocks f (take (evicted s) (m_memBlocks s)))) <$>
    allocateBlocks s si n.
Proof.
  unfold allocateBlocks, evicted. rewrite !removeRange0. simpl.
  change (minBlock (set_backing s f)) with (minBlock s).
  destruct (getLast _) as [lb|]; [|done]. simpl.
  destruct (newBlockCount _ _ _ _) as [nb|]; [|done]. simpl.
  by destruct (0 <? nb).
Qed.

Lemma prepared_backing s f sp n :
  ∃ g, prepared (set_backing s f) sp n = (λ s1, set_backing s1 g) <$> prepared s sp n.
Proof.
  unfold prepared. change (needsAllocation (set_backing s f) sp n) with (needsAllocation s sp n).
  destruct (needsAllocation s sp n).
  - eexists. apply allocateBlocks_backing.
  - by exists f.
Qed.

Lemma writeLoop_backing g fuel : ∀ s ch data n lbi bi w si smp di,
  writeLoop fuel (set_backing s g) ch data n lbi bi w si smp di =
  (λ r, (set_backing r.1 g, r.2)) <$> writeLoop fuel s ch data n lbi bi w si smp di.
Proof.
  induction fuel as [|fuel IH]; intros s ch data n lbi bi w si smp di.
  - unfold writeLoop. by destruct (w <? n).
  - destruct (decide (w < n)) as [Hw|Hw].
    2: { by rewrite !writeLoop_done by lia. }
    rewrite !writeLoop_iter by done. simpl.
    destruct (own_get (m_memBlocks s) bi) as [blk|]; [|done]. simpl.
    destruct (copyLoop _ _ _ _ _ _ _ _) as [[bd di']|]; [|done]. simpl.
    rewrite <-IH. f_equal. unfold iterState. simpl. by destruct (_ && _).
Qed.

Lemma writeChannel_backing s f sp ch d n :
  ∃ g, writeChannel (set_backing s f) sp ch d n =
       (λ r, (r.1, set_backing r.2 g)) <$> writeChannel s sp ch d n.
Proof.
  destruct (m_file s) eqn:Ef.
  2: { rewrite !writeChannel_closed by done. by exists f. }
  rewrite !writeChannel_open by done.
  destruct (prepared_backing s f sp n) as [g ->]. exists g.
  destruct (prepared s sp n) as [s1|]; [|done]. simpl.
  destruct (findBlock _ _ _) as [idx|]; [|done]. simpl.
  destruct (idx <? 0); [done|].
  destruct (own_get _ _) as [blk|]; [|done]. simpl.
  rewrite writeLoop_backing.
  by destruct (writeLoop _ _ _ _ _ _ _ _ _ _ _) as [[s2 bi]|].
Qed.

Lemma shiftLoop_length n : ∀ i cur mb,
  0 ≤ i → i + Z.of_nat n ≤ Z.of_nat (length cur) →
  length (shiftLoop n i cur mb) = length cur.
Proof.
  induction n as [|n IH]; intros i cur mb Hi Hn; simpl; [done|].
  assert (length (arr_set cur i (i32 (arr_get cur i - mb))) = length cur) as Hl.
  { unfold arr_set. destruct (i <? 0) eqn:E1; [done|].
    destruct (i <? Z.of_nat (length cur)) eqn:E2; [|lia]. by rewrite length_insert. }
  rewrite IH; [done|lia|]. rewrite Hl. lia.
Qed.

Lemma prepared_cursors s sp n s1 :
  CursorsOk s → prepared s sp n = Some s1 →
  length (m_currentBlock s1) = length (m_currentBlock s) ∧ m_nChannels s1 = m_nChannels s.
Proof.
  intros [Hlen _]. unfold prepared. destruct (needsAllocation s sp n).
  - intros (lb & nb & _ & _ & ->)%allocateBlocks_Some. simpl. split; [|done].
    apply shiftLoop_length; lia.
  - by intros [= <-].
Qed.

Lemma arr_get_set l i v :
  0 ≤ i < Z.of_nat (length l) → arr_get (arr_set l i v) i = v.
Proof.
  intros Hi. unfold arr_get, arr_set.
  destruct (i <? 0) eqn:E1; [lia|]. destruct (i <? Z.of_nat (length l)) eqn:E2; [|lia].
  rewrite length_insert. destruct ((0 <=? i) && (i <? Z.of_nat (length l))) eqn:E3; [|lia].
  rewrite list_lookup_insert_eq by lia. done.
Qed.

(** ** The states of the examples *)

Lemma Scenario_s3_ok : WindowOk Scenario.s3.
Proof. concrete_window. Qed.

Lemma Stale_s3_reached : run (construct Scenario.file0 1 4) Stale.ops = Some Stale.s3.
Proof. vm_compute. reflexivity. Qed.

Lemma Stale_s3_ok : WindowOk Stale.s3.
Proof. concrete_window. Qed.

(** The calls that lead to [Crash.s6], each within the contract and returning
    true, with the offsets and the cursors they leave. *)
Lemma Crash_s6_reached :
  ∃ s1 s2 s3 s4 s5,
    writeChannel Scenario.s0 0 0 [1; 2; 3; 4] 4 = Some (true, s1) ∧
    writeChannel s1 4 0 [5; 6; 7; 8; 9; 10; 11; 12; 13; 14; 15; 16; 17] 13 = Some (true, s2) ∧
    offsets s2 = [0; 4; 8; 12; 16] ∧ m_currentBlock s2 = [4; -1] ∧
    writeChannel s2 17 0 [18; 19; 20; 21] 4 = Some (true, s3) ∧
    offsets s3 = [16; 20] ∧ m_currentBlock s3 = [1; -5] ∧
    writeChannel s3 16 0 [] 0 = Some (true, s4) ∧
    offsets s4 = [16; 20] ∧ m_currentBlock s4 = [-1; -5] ∧
    writeChannel s4 24 1 [31; 32; 33; 34; 35] 5 = Some (true, s5) ∧
    offsets s5 = [16; 20; 24; 28] ∧ m_currentBlock s5 = [4; 3] ∧
    writeChannel s5 16 1 [] 0 = Some (true, Crash.s6).
Proof.
  do 5 eexists.
  do 13 (split; [vm_compute; reflexivity|]). vm_compute. reflexivity.
Qed.

Lemma Crash_s6_blocks : BlocksOk Crash.s6.
Proof.
  split; try (vm_compute; done).
  - intros i b Hi.
    do 4 (destruct i as [|i]; [vm_compute in Hi; injection Hi as <-; reflexivity|]).
    vm_compute in Hi. discriminate.
  - intros i b Hi.
    do 4 (destruct i as [|i]; [vm_compute in Hi; injection Hi as <-; reflexivity|]).
    vm_compute in Hi. discriminate.
Qed.

(** ** Supporting facts *)

(** The window after construction and a successful openFile is well formed,
    for a block that fits an [int]. *)
Lemma open_WindowOk f nCh spb :
  1 ≤ nCh → 1 ≤ spb → nCh * spb < 2 ^ 31 →
  WindowOk (openFile (construct f nCh spb) true).2.
Proof.
  intros HnCh Hspb Hint.
  assert (i32 (nCh * spb) = nCh * spb) as Hbs by (apply i32_id; nia).
  split.
  - split; simpl; rewrite ?Hbs; try done.
    + intros [|i] b; [|done]. simpl. intros [= <-]. simpl. rewrite length_replicate. nia.
    + intros [|i] b; [|done]. simpl. by intros [= <-].
    + unfold tailEnd, firstOffset. simpl. lia.
  - split; simpl.
    + rewrite length_replicate. lia.
    + intros c ->%elem_of_replicate_inv. lia.
Qed.

(** A call within the contract keeps the window well formed. *)
Lemma writeChannel_BlocksOk s sp ch d n r s' :
  BlocksOk s → WriteOk s sp ch d n →
  writeChannel s sp ch d n = Some (r, s') → BlocksOk s'.
Proof.
  intros Hok Hwr Hres. destruct (m_file s) eqn:Ef.
  2: { rewrite writeChannel_closed in Hres by done. by simplify_eq. }
  pose proof (writeChannel_Some_evicted _ _ _ _ _ _ _ Ef Hres) as Hev.
  destruct (writeChannel_ok s sp ch d n Hok Hwr Ef Hev)
    as (s1 & idx & Hprep & Hok1 & Hfind & Hstale & Hfound).
  destruct (decide (sp < firstOffset s1)) as [Hlt|Hge].
  - destruct (Hstale Hlt) as [_ Hf]. rewrite Hf in Hres. by simplify_eq.
  - destruct (Hfound ltac:(lia)) as (_ & s2 & bi & Hrun & Hsame & _).
    rewrite Hrun in Hres. simplify_eq.
    destruct (SameWindow_BlocksOk _ _ Hsame Hok1). by split.
Qed.

Lemma minBlockLoop_le n : ∀ i cur acc,
  minBlockLoop n i cur acc ≤ acc ∧
  ∀ j, 0 ≤ j < Z.of_nat n → minBlockLoop n i cur acc ≤ u32 (arr_get cur (i + j)).
Proof.
  induction n as [|n IH]; intros i cur acc; simpl; [split; [done|lia]|].
  destruct (IH (i + 1) cur (if u32 (arr_get cur i) <? acc then u32 (arr_get cur i) else acc))
    as [Hacc Hall].
  split; [case_match; lia|]. intros j Hj. destruct (decide (j = 0)) as [->|Hne].
  - rewrite Z.add_0_r. case_match; lia.
  - specialize (Hall (j - 1) ltac:(lia)). by replace (i + 1 + (j - 1)) with (i + j) in Hall by lia.
Qed.

(** What holds of C1 on the code: the blocks allocateBlocks removes lie below
    the cursor of every channel whose cursor is not negative. Only the
    channels at a negative cursor, the sentinel -1 among them, are left out of
    the minimum. *)
Lemma eviction_below_written_cursors s c :
  Z.of_nat (length (m_currentBlock s)) = m_nChannels s →
  c ∈ m_currentBlock s → 0 ≤ c < 2 ^ 31 →
  Z.of_nat (evicted s) ≤ c.
Proof.
  intros Hlen [j Hj]%list_elem_of_lookup Hc.
  pose proof (lookup_lt_Some _ _ _ Hj) as Hlt.
  destruct (minBlockLoop_le (Z.to_nat (m_nChannels s)) 0 (m_currentBlock s) 4294967295)
    as [_ Hall].
  specialize (Hall (Z.of_nat j) ltac:(lia)). fold (minBlock s) in Hall.
  assert (arr_get (m_currentBlock s) (0 + Z.of_nat j) = c) as Hget.
  { unfold arr_get. rewrite Z.add_0_l.
    destruct ((0 <=? Z.of_nat j) && (Z.of_nat j <? Z.of_nat (length (m_currentBlock s)))) eqn:E;
      [|lia]. by rewrite Nat2Z.id, Hj. }
  rewrite Hget in Hall. replace (u32 c) with c in Hall by (unfold u32; zdiv).
  assert (0 ≤ minBlock s) as Hpos.
  { unfold minBlock.
    destruct (minBlockLoop_cases (Z.to_nat (m_nChannels s)) 0 (m_currentBlock s) 4294967295)
      as [->|[j' ->]]; [done|apply u32_range]. }
  unfold evicted. rewrite Z.add_0_l, i32_idem, (i32_id (minBlock s)) by lia.
  unfold jlimit. repeat case_match; lia.
Qed.

(** ** The fill mark *)

Lemma iterState_fill s bi lbi blk bd pos :
  m_lastBlockFill (iterState s bi lbi blk bd pos) =
  if (bi =? lbi) && (m_lastBlockFill s <? pos) then pos else m_lastBlockFill s.
Proof. unfold iterState. simpl. by destruct (_ && _). Qed.

(** The loop raises the fill mark to the row the run ends at, when the run
    reaches the tail block. *)
Lemma writeLoop_fill ch data n sp fuel : ∀ s lbi bi w si smp di s' bi',
  BlocksOk s → 0 ≤ w → n < 2 ^ 31 → 0 ≤ bi →
  lbi = Z.of_nat (length (m_memBlocks s)) - 1 →
  (w < n → 0 ≤ si < m_samplesPerBlock s ∧
           firstOffset s + bi * m_samplesPerBlock s + si = sp + w ∧
           sp + n ≤ tailEnd s) →
  writeLoop fuel s ch data n lbi bi w si smp di = Some (s', bi') →
  m_lastBlockFill s' =
  if decide (w < n ∧ tailEnd s - m_samplesPerBlock s < sp + n)
  then Z.max (m_lastBlockFill s) (sp + n - (tailEnd s - m_samplesPerBlock s))
  else m_lastBlockFill s.
Proof.
  induction fuel as [|fuel IH]; intros s lbi bi w si smp di s' bi' Hok Hw Hn Hbi Hlbi Hinv Hrun.
  all: destruct (decide (w < n)) as [Hlt|Hge].
  all: try (rewrite writeLoop_done in Hrun by lia; simplify_eq; by rewrite decide_False by lia).
  { unfold writeLoop in Hrun. destruct (w <? n) eqn:E; [done|lia]. }
  destruct (Hinv Hlt) as (Hsi & Hpos & Hcov).
  pose proof (ok_spb s Hok) as Hspb. pose proof (ok_nChannels s Hok) as HnCh.
  pose proof (ok_int s Hok) as Hint.
  rewrite writeLoop_iter in Hrun by done.
  destruct (own_get (m_memBlocks s) bi) as [blk|] eqn:Hown; [|done]. simpl in Hrun.
  rewrite (i32_id (n - w)), (i32_id (m_samplesPerBlock s - si)), jmin_min in Hrun by nia.
  remember (Z.min (n - w) (m_samplesPerBlock s - si)) as stw eqn:Estw.
  destruct (copyLoop _ _ _ _ _ _ _ _) as [[bd di']|] eqn:Hcopy; [|done]. simpl in Hrun.
  rewrite (i32_id (w + stw)), (i32_id (si + stw)), (u64_id (si + stw)) in Hrun by nia.
  assert (SameWindow s (iterState s bi lbi blk bd (si + stw))) as Hsame.
  { apply iterState_same; [done|]. by eapply copyLoop_length. }
  pose proof (SameWindow_BlocksOk _ _ Hsame Hok) as Hok1.
  pose proof (SameWindow_firstOffset _ _ Hsame) as Hfo.
  pose proof (SameWindow_tailEnd _ _ Hsame) as Hte.
  pose proof (SameWindow_length _ _ Hsame) as Hlen1.
  pose proof (same_spb _ _ Hsame) as Hspb1.
  apply IH in Hrun; try (done || lia).
  rewrite Hrun, Hte, Hspb1, iterState_fill.
  assert (bi < Z.of_nat (length (m_memBlocks s))) as Hbilt.
  { apply own_get_Some in Hown as [_ Hl%lookup_lt_Some]. lia. }
  unfold tailEnd in *.
  destruct (bi =? lbi) eqn:Ebi; simpl.
  - assert (w + stw = n) by nia.
    rewrite decide_False by lia. rewrite decide_True by nia.
    destruct (m_lastBlockFill s <? si + stw) eqn:E; nia.
  - repeat case_decide; try done; nia.
Qed.

(** The fill mark after a successful write: the mark the tail check hands over
    (0 when blocks were appended), raised to the row the run ends at when the
    run reaches the tail block. *)
Lemma writeChannel_fill s sp ch d n s' :
  BlocksOk s → WriteOk s sp ch d n →
  writeChannel s sp ch d n = Some (true, s') →
  ∃ s1,
    prepared s sp n = Some s1 ∧ tailEnd s' = tailEnd s1 ∧
    m_lastBlockFill s' =
    if decide (0 < n ∧ tailEnd s' - m_samplesPerBlock s < sp + n)
    then Z.max (m_lastBlockFill s1) (sp + n - (tailEnd s' - m_samplesPerBlock s))
    else m_lastBlockFill s1.
Proof.
  intros Hok Hwr Hres. destruct (m_file s) eqn:Ef.
  2: { rewrite writeChannel_closed in Hres by done. simplify_eq. }
  pose proof (writeChannel_Some_evicted _ _ _ _ _ _ _ Ef Hres) as Hev.
  destruct (prepared_ok s sp ch d n Hok Hwr Hev)
    as (s1 & Hprep & Hok1 & Hcov & _ & _ & _ & _ & Hspb & _).
  exists s1. split; [done|].
  rewrite writeChannel_open, Hprep in Hres by done. simpl in Hres.
  destruct (findBlock_ok s1 sp Hok1) as (idx & Hfind & Hstale & Hfound).
  rewrite Hfind in Hres. simpl in Hres.
  destruct (idx <? 0) eqn:E; [done|].
  destruct (decide (sp < firstOffset s1)) as [Hlt|Hge]; [specialize (Hstale Hlt); lia|].
  destruct (Hfound ltac:(lia)) as (Hidx & Hlo & Hhi).
  destruct (own_get (m_memBlocks s1) idx) as [blk|] eqn:Hown; [|done]. simpl in Hres.
  destruct (writeLoop _ _ _ _ _ _ _ _ _ _ _) as [[s2 bi]|] eqn:Hrun; [|done].
  simpl in Hres. simplify_eq. simpl.
  pose proof Hown as [_ Hblk]%own_get_Some.
  pose proof (ok_offsets s1 Hok1 _ _ Hblk) as Hoff. rewrite Z2Nat.id in Hoff by lia.
  pose proof (ok_spb s1 Hok1) as Hspb1. pose proof (ok_nChannels s1 Hok1) as HnCh1.
  pose proof (ok_int s1 Hok1) as Hint. destruct Hwr as [Hch Hn Hd Hsp Hreach Hroom].
  assert (0 ≤ sp - getOffset blk ≤ m_samplesPerBlock s1) as Hsi.
  { unfold tailEnd in Hcov. nia. }
  rewrite (i32_id (sp - getOffset blk)) in Hrun by nia.
  pose proof (writeLoop_frame _ _ _ _ _ _ _ _ _ _ _ _ _ Hrun) as Hsame.
  apply (writeLoop_fill ch d n sp) in Hrun; try (done || lia).
  2: { intros Hpos. unfold tailEnd in Hcov. split; [nia|]. split; [lia|done]. }
  change (tailEnd (set_currentBlock s2 (arr_set (m_currentBlock s2) ch (bi - 1))))
    with (tailEnd s2).
  rewrite (SameWindow_tailEnd _ _ Hsame). split; [done|].
  rewrite Hrun, Hspb. repeat case_decide; done || lia.
Qed.

(** * The claims *)

(** C1, evaluated where it fails. Channel 0 has written into blocks 0 and 1
    and channel 1 has not written, so the least cursor is -1; allocateBlocks
    compares the cursors as unsigned and takes 1 for the minimum: block 0 is
    flushed and removed, in the call itself and in the write of channel 0 at
    position 8 that makes it, and the first write of channel 1, at position 0,
    is rejected. *)
Theorem unwritten_channel_block_evicted :
  run (construct Scenario.file0 2 4) Lagging.ops = Some Lagging.s2 ∧
  m_currentBlock Lagging.s2 = [1; -1] ∧
  offsets Lagging.s2 = [0; 4] ∧
  minBlock Lagging.s2 = 1 ∧
  evicted Lagging.s2 = 1%nat ∧
  ∃ s3 s4,
    allocateBlocks Lagging.s2 8 1 = Some s3 ∧
    offsets s3 = [4; 8] ∧
    written (backing s3) = [1; 0; 2; 0; 3; 0; 4; 0] ∧
    m_currentBlock s3 = [0; -2] ∧
    writeChannel Lagging.s2 8 0 [6] 1 = Some (true, s4) ∧
    offsets s4 = [4; 8] ∧
    fst <$> writeChannel s4 0 1 [9] 1 = Some false.
Proof.
  do 5 (split; [vm_compute; reflexivity|]).
  eexists. eexists. split; [vm_compute; reflexivity|].
  do 3 (split; [vm_compute; reflexivity|]).
  split; [vm_compute; reflexivity|].
  split; vm_compute; reflexivity.
Qed.




(** C3. Interleave correctness: after a successful writeChannel for channel
    [ch] at [sp] with [n] samples, every sample [sp + k] of the run lies in a
    resident block, the one whose range contains it, at position
    (sp + k - offset) * nChannels + ch, and equals the input value [d[k]]. The
    run is split at block boundaries by the loop ([writeLoop_iter]: every
    iteration copies min (remaining, samplesPerBlock - startIdx) samples and
    goes on in the next block at row 0). *)
Theorem interleave_correct s sp ch d n s' :
  BlocksOk s → WriteOk s sp ch d n →
  writeChannel s sp ch d n = Some (true, s') →
  ∀ k, 0 ≤ k < n →
    ∃ (j : nat) b v,
      m_memBlocks s' !! j = Some b ∧
      getOffset b ≤ sp + k < getOffset b + m_samplesPerBlock s' ∧
      d !! Z.to_nat k = Some v ∧
      getData b !! Z.to_nat ((sp + k - getOffset b) * m_nChannels s' + ch) = Some v.
Proof.
  intros Hw Hwr Hres k Hk.
  destruct (m_file s) eqn:Ef.
  2: { rewrite writeChannel_closed in Hres by done. simplify_eq. }
  pose proof (writeChannel_Some_evicted _ _ _ _ _ _ _ Ef Hres) as Hev.
  destruct (writeChannel_ok s sp ch d n Hw Hwr Ef Hev)
    as (s1 & idx & Hprep & Hok1 & Hfind & Hstale & Hfound).
  destruct (decide (sp < firstOffset s1)) as [Hlt|Hge].
  { destruct (Hstale Hlt) as [_ Hf]. rewrite Hf in Hres. simplify_eq. }
  destruct (Hfound ltac:(lia)) as (Hidx & s2 & bi & Hrun & Hsame & _ & Hcells).
  rewrite Hrun in Hres. simplify_eq. simpl.
  destruct (prepared_ok s sp ch d n Hw Hwr Hev)
    as (s1' & Hprep' & _ & Hcov & _ & _ & _ & HnCh1 & _).
  rewrite Hprep in Hprep'. simplify_eq.
  pose proof (SameWindow_BlocksOk _ _ Hsame Hok1) as Hok2.
  pose proof (same_spb _ _ Hsame) as Hspb. pose proof (same_nChannels _ _ Hsame) as HnCh.
  pose proof (SameWindow_firstOffset _ _ Hsame) as Hfo.
  pose proof (ok_spb _ Hok1) as Hspb1.
  destruct Hwr as [Hch Hn Hd Hsp Hreach Hroom].
  set (x := sp + k - firstOffset s1').
  assert (0 ≤ x) as Hx by (subst x; lia).
  pose proof (Z.div_mod x (m_samplesPerBlock s1') ltac:(lia)) as Hdm.
  pose proof (Z.mod_pos_bound x (m_samplesPerBlock s1') ltac:(lia)) as Hmod.
  pose proof (Z.div_pos x (m_samplesPerBlock s1') Hx ltac:(lia)) as Hdiv.
  set (q := x / m_samplesPerBlock s1') in *. set (r := x mod m_samplesPerBlock s1') in *.
  specialize (Hcells (Z.to_nat q) r ch Hmod ltac:(lia)).
  rewrite Z2Nat.id in Hcells by done.
  rewrite decide_True in Hcells by (subst x; lia).
  replace (firstOffset s1' + q * m_samplesPerBlock s1' + r - sp) with k in Hcells
    by (subst x; lia).
  destruct (lookup_lt_is_Some_2 d (Z.to_nat k)) as [v Hv]; [lia|].
  rewrite Hv in Hcells. unfold cell in Hcells.
  destruct (m_memBlocks s2 !! Z.to_nat q) as [b|] eqn:Eb; [|done]. simpl in Hcells.
  pose proof (ok_offsets _ Hok2 _ _ Eb) as Hoff.
  rewrite Z2Nat.id, Hfo, Hspb in Hoff by done.
  exists (Z.to_nat q), b, v. split; [done|]. rewrite Hspb, HnCh. split; [subst x; lia|].
  split; [done|]. rewrite <-Hcells. do 2 f_equal. rewrite HnCh. subst x. nia.
Qed.

Lemma interleave_correct_witness :
  BlocksOk Scenario.s3 ∧ WriteOk Scenario.s3 2 1 [70; 71; 72; 73] 4 ∧
  ∃ s', writeChannel Scenario.s3 2 1 [70; 71; 72; 73] 4 = Some (true, s') ∧
        ∃ (j : nat) b v,
          m_memBlocks s' !! j = Some b ∧
          getOffset b ≤ 2 + 2 < getOffset b + m_samplesPerBlock s' ∧
          [70; 71; 72; 73] !! Z.to_nat 2 = Some v ∧
          getData b !! Z.to_nat ((2 + 2 - getOffset b) * m_nChannels s' + 1) = Some v.
Proof.
  assert (WriteOk Scenario.s3 2 1 [70; 71; 72; 73] 4) as Hwr
    by (split; vm_compute; (split; discriminate || reflexivity) || discriminate || reflexivity).
  split; [exact (proj1 Scenario_s3_ok)|]. split; [exact Hwr|].
  eexists. split; [vm_compute; reflexivity|].
  apply (interleave_correct Scenario.s3 2 1 [70; 71; 72; 73] 4 _ (proj1 Scenario_s3_ok) Hwr).
  - vm_compute. reflexivity.
  - lia.
Defined.

(** C4. The scenario of the specification, with nChannels = 2 and
    samplesPerBlock = 4: after a successful open, writing [1,2,3,4] for channel 0
    at 0 and [9,8,7,6] for channel 1 at 0 leaves block 0 holding
    [1,9,2,8,3,7,4,6]; writing [5] for channel 0 at 4 appends block 1 at
    offset 4 and leaves the cursor of channel 1 at 0; a later write for
    channel 1 at 0 succeeds, block 0 still being resident. *)
Theorem scenario_interleave_and_retention :
  (openFile (construct Scenario.file0 2 4) true).1 = true ∧
  Scenario.w1 = Some (true, Scenario.s1) ∧
  Scenario.w2 = Some (true, Scenario.s2) ∧
  getData <$> m_memBlocks Scenario.s2 = [[1; 9; 2; 8; 3; 7; 4; 6]] ∧
  Scenario.w3 = Some (true, Scenario.s3) ∧
  offsets Scenario.s3 = [0; 4] ∧
  m_currentBlock Scenario.s3 = [1; 0] ∧
  evicted Scenario.s3 = 0%nat ∧
  (∃ s4, Scenario.w4 = Some (true, s4) ∧ offsets s4 = [0; 4]).
Proof.
  do 8 (split; [vm_compute; reflexivity|]).
  eexists. split; vm_compute; reflexivity.
Qed.

(** C5, evaluated where it fails. With samplesPerBlock = 4 and one block at
    offset 0, a write of 4 samples at position 4 is short of 4 samples, one
    block by ceiling division; line 175 counts one sample more and
    allocateBlocks appends two blocks, at offsets 4 and 8. *)
Theorem boundary_write_allocates_extra_block :
  let s := (openFile (construct Scenario.file0 2 4) true).2 in
  needsAllocation s 4 4 = true ∧
  (4 + 4 - (0 + 4) + 4 - 1) / 4 = 1 ∧
  newBlockCount 4 0 4 4 = Some 2 ∧
  offsets <$> allocateBlocks s 4 4 = Some [0; 4; 8].
Proof. intros s. do 3 (split; [vm_compute; reflexivity|]). vm_compute; reflexivity. Qed.

(** C6. When the fill mark of the final resident block is k < samplesPerBlock
    and the object is destroyed, the destructor flushes the earlier blocks in
    full and in order, and then exactly k interleaved sample rows, k * nChannels
    samples, of the final block. *)
Theorem shutdown_trimming s bs b k :
  BlocksOk s →
  failing (backing s) = false →
  m_memBlocks s = bs ++ [b] →
  m_lastBlockFill s = k → 0 ≤ k < m_samplesPerBlock s →
  ∃ f,
    destructor s = Some f ∧
    written f = written (backing s) ++ concat (getData <$> bs) ++
                take (Z.to_nat (k * m_nChannels s)) (getData b) ∧
    Z.of_nat (length (take (Z.to_nat (k * m_nChannels s)) (getData b))) = k * m_nChannels s ∧
    k * m_nChannels s < Z.of_nat (length (getData b)).
Proof.
  intros Hok Hf Hb Hk Hlt. destruct Hok.
  erewrite destructor_snoc by done. eexists. split; [done|].
  destruct (destroyBlocks_written (backing s) bs Hf) as [Hf' Hw].
  assert (Z.of_nat (length (getData b)) = m_nChannels s * m_samplesPerBlock s) as Hlen.
  { rewrite <-ok_blockSize0. apply (ok_data0 (length bs)).
    rewrite Hb. apply list_lookup_middle. done. }
  rewrite Hk, u64_id by nia.
  unfold partialFlush, stream_write. rewrite Hf'. simpl. rewrite Hw, <-app_assoc.
  split; [done|]. rewrite length_take. split; nia.
Qed.

Lemma shutdown_trimming_witness :
  BlocksOk Scenario.s3 ∧
  m_lastBlockFill Scenario.s3 = 1 ∧
  ∃ f, destructor Scenario.s3 = Some f ∧ written f = [1; 9; 2; 8; 3; 7; 4; 6] ++ [5; 0].
Proof.
  assert (BlocksOk Scenario.s3) as Hok.
  { split; try (vm_compute; done).
    - intros [|[|i]] b; vm_compute; intros [= <-]; reflexivity.
    - intros [|[|i]] b; vm_compute; intros [= <-]; reflexivity. }
  split; [exact Hok|]. split; [reflexivity|].
  destruct (shutdown_trimming Scenario.s3
              [{| getOffset := 0; getData := [1; 9; 2; 8; 3; 7; 4; 6] |}]
              {| getOffset := 4; getData := [5; 0; 0; 0; 0; 0; 0; 0] |} 1 Hok)
    as (f & Hd & Hw & _); try reflexivity; [vm_compute; split; discriminate || reflexivity|].
  exists f. split; [exact Hd|]. rewrite Hw. reflexivity.
Defined.

(** C7, as stated, fails: offset contiguity does not hold after every sequence
    of operations. A second successful openFile appends another block at
    offset 0 behind the resident ones. *)
Lemma second_open_breaks_contiguity :
  ¬ (∀ f nCh spb ops s,
       run (construct f nCh spb) ops = Some s →
       contiguous (m_samplesPerBlock s) (offsets s)).
Proof.
  intros H.
  specialize (H Scenario.file0 2 4 [OpOpen true; OpOpen true] _ eq_refl 0%nat 0 0 eq_refl eq_refl).
  vm_compute in H. discriminate.
Qed.

(** C7 (amended). After any sequence of openFile, writeChannel and
    allocateBlocks calls in which openFile succeeds at most once, consecutive
    resident blocks are samplesPerBlock apart: blocks[i+1].offset ==
    blocks[i].offset + samplesPerBlock and blocks[i].offset == blocks[0].offset +
    i*samplesPerBlock in the uint64 arithmetic of the offsets, and as integers
    when no offset wraps. *)
Theorem offsets_contiguous f nCh spb ops s :
  (opens ops ≤ 1)%nat →
  run (construct f nCh spb) ops = Some s →
  contiguous spb (offsets s) ∧
  (∀ (i : nat) o, offsets s !! i = Some o → o = u64 (firstOffset s + Z.of_nat i * spb)) ∧
  ((∀ o, o ∈ offsets s → 0 ≤ o + spb < 2 ^ 64) →
   ∀ (i : nat) o o', offsets s !! i = Some o → offsets s !! S i = Some o' → o' = o + spb).
Proof.
  intros Hle Hrun.
  destruct (run_contiguous _ _ _ Hrun) as (Hc & Hr & Hs); try done.
  { unfold inRange, offsets. simpl. by intros o ?%elem_of_nil. }
  simpl in Hs. rewrite Hs in Hc. split; [done|]. split.
  - intros i o Hi.
    destruct (offsets s !! 0%nat) as [o0|] eqn:E0.
    2: { apply lookup_ge_None in E0. apply lookup_lt_Some in Hi. lia. }
    replace (firstOffset s) with o0.
    { by eapply contiguous_nth. }
    unfold firstOffset, offsets in *. rewrite list_lookup_fmap in E0.
    rewrite head_lookup. destruct (m_memBlocks s !! 0%nat); simpl in *; by simplify_eq.
  - intros Hwrap i o o' H1 H2. rewrite (Hc _ _ _ H1 H2).
    apply u64_id, Hwrap. by eapply list_elem_of_lookup_2.
Qed.

Lemma offsets_contiguous_witness :
  (opens Scenario.ops3 ≤ 1)%nat ∧
  run (construct Scenario.file0 2 4) Scenario.ops3 = Some Scenario.s3 ∧
  contiguous 4 (offsets Scenario.s3).
Proof.
  split; [vm_compute; lia|]. split; [vm_compute; reflexivity|].
  refine (proj1 (offsets_contiguous Scenario.file0 2 4 Scenario.ops3 Scenario.s3 _ _)).
  - vm_compute. lia.
  - vm_compute. reflexivity.
Defined.

(** What holds of C8 on the code. A call on a closed file returns false at
    once and leaves the state, backing stream included, as it was. A call that
    returns returns false exactly when the file is not open or no block of the
    window the scan runs on has an offset at or below startPos, and true on
    every other path. The backing stream, failing or not, has no part in the
    result. On an open file with well-formed blocks and within the contract,
    the call returns exactly when allocateBlocks, if the tail check calls it,
    leaves a block in the window. *)
Lemma writeChannel_result s sp ch d n :
  (m_file s = false → writeChannel s sp ch d n = Some (false, s)) ∧
  (∀ r s', writeChannel s sp ch d n = Some (r, s') →
     (r = false ↔
      m_file s = false ∨
      ∃ s1, prepared s sp n = Some s1 ∧ ∀ b, b ∈ m_memBlocks s1 → sp < getOffset b)) ∧
  (BlocksOk s → WriteOk s sp ch d n → m_file s = true →
     (is_Some (writeChannel s sp ch d n) ↔
      (needsAllocation s sp n = true → (evicted s < length (m_memBlocks s))%nat))) ∧
  (∀ f, fst <$> writeChannel (set_backing s f) sp ch d n = fst <$> writeChannel s sp ch d n).
Proof.
  split; [apply writeChannel_closed|]. split; [|split].
  - intros r s' Hres. destruct (m_file s) eqn:Ef.
    2: { rewrite writeChannel_closed in Hres by done. simplify_eq. split; [by left|done]. }
    rewrite writeChannel_open in Hres by done.
    destruct (prepared s sp n) as [s1|] eqn:Hprep; [|done]. simpl in Hres.
    destruct (findBlock_scan (m_memBlocks s1) sp (length (m_memBlocks s1)))
      as (idx & Hfind & Hcases); [done|].
    rewrite Hfind in Hres. simpl in Hres.
    destruct Hcases as [[-> Hall]|(Hidx & b & Hb & Hle & _)].
    + simpl in Hres. simplify_eq. split; [|done]. intros _. right. exists s'.
      split; [done|]. intros b [i Hi]%list_elem_of_lookup.
      eapply Hall; [|done]. by eapply lookup_lt_Some.
    + destruct (idx <? 0) eqn:E; [lia|].
      destruct (own_get _ _) as [blk|]; [|done]. simpl in Hres.
      destruct (writeLoop _ _ _ _ _ _ _ _ _ _ _) as [[s2 bi]|]; [|done].
      simpl in Hres. simplify_eq. split; [done|].
      intros [?|(s1' & ? & Hall)]; [done|]. simplify_eq.
      specialize (Hall b ltac:(by eapply list_elem_of_lookup_2)). lia.
  - intros Hok Hwr Ef. split.
    + intros [[r s'] Hres]. by eapply writeChannel_Some_evicted.
    + intros Hev.
      destruct (writeChannel_ok s sp ch d n Hok Hwr Ef Hev)
        as (s1 & idx & Hprep & Hok1 & Hfind & Hstale & Hfound).
      destruct (decide (sp < firstOffset s1)) as [Hlt|Hge].
      * destruct (Hstale Hlt) as [_ ->]. done.
      * destruct (Hfound ltac:(lia)) as (_ & s2 & bi & -> & _). done.
  - intros f. destruct (writeChannel_backing s f sp ch d n) as [g ->].
    by destruct (writeChannel s sp ch d n) as [[r s']|].
Qed.

(** C8, evaluated where it fails. Six calls of writeChannel within the
    contract, each returning true (Crash_s6_reached), leave an open file with
    the blocks 16, 20, 24 and 28 and the cursors [4; -1]. The write of one
    sample of channel 0 at position 32 is within the contract and the window
    holds blocks at or below 32, but the tail check calls allocateBlocks,
    which takes 4 for the least cursor, removes all four blocks and reads the
    offset of the last block of an empty window: the call returns neither true
    nor false. *)
Theorem writeChannel_null_tail :
  run (construct Scenario.file0 2 4) Crash.ops = Some Crash.s6 ∧
  m_file Crash.s6 = true ∧
  BlocksOk Crash.s6 ∧
  WriteOk Crash.s6 32 0 [1] 1 ∧
  offsets Crash.s6 = [16; 20; 24; 28] ∧
  m_currentBlock Crash.s6 = [4; -1] ∧
  needsAllocation Crash.s6 32 1 = true ∧
  minBlock Crash.s6 = 4 ∧
  evicted Crash.s6 = 4%nat ∧
  getLast (drop (evicted Crash.s6) (m_memBlocks Crash.s6)) = None ∧
  allocateBlocks Crash.s6 32 1 = None ∧
  writeChannel Crash.s6 32 0 [1] 1 = None.
Proof.
  split; [vm_compute; reflexivity|]. split; [reflexivity|].
  split; [exact Crash_s6_blocks|].
  split; [split; vm_compute; (split; discriminate || reflexivity) || discriminate|].
  do 7 (split; [vm_compute; reflexivity|]). vm_compute. reflexivity.
Qed.

(** What holds of C9 on the code. On an open file with well-formed blocks, a
    write of zero samples at or above the offset of the first resident block
    returns whenever allocateBlocks, if the tail check calls it, leaves a
    block in the window; it then returns true and copies nothing: the state is
    the one the tail check (or allocateBlocks) leaves, except that the cursor
    of the channel is set to the index of the located block minus one. The
    located block is the block that holds row startPos, or the last block when
    startPos is the end of the window. *)
Lemma zero_length_write_cursor s sp ch d :
  BlocksOk s → WriteOk s sp ch d 0 → m_file s = true → firstOffset s ≤ sp →
  (needsAllocation s sp 0 = true → (evicted s < length (m_memBlocks s))%nat) →
  ∃ s1 idx,
    prepared s sp 0 = Some s1 ∧
    (needsAllocation s sp 0 = false → s1 = s) ∧
    findBlock (m_memBlocks s1) sp (length (m_memBlocks s1)) = Some idx ∧
    0 ≤ idx < Z.of_nat (length (m_memBlocks s1)) ∧
    firstOffset s1 + idx * m_samplesPerBlock s ≤ sp ∧
    (sp < firstOffset s1 + (idx + 1) * m_samplesPerBlock s ∨
     idx = Z.of_nat (length (m_memBlocks s1)) - 1 ∧ sp = tailEnd s1) ∧
    writeChannel s sp ch d 0 =
      Some (true, set_currentBlock s1 (arr_set (m_currentBlock s1) ch (idx - 1))) ∧
    (Z.of_nat (length (m_currentBlock s)) = m_nChannels s →
     arr_get (arr_set (m_currentBlock s1) ch (idx - 1)) ch = idx - 1).
Proof.
  intros Hok Hwr Hopen Hsp Hev.
  destruct (writeChannel_ok s sp ch d 0 Hok Hwr Hopen Hev)
    as (s1 & idx & Hprep & Hok1 & Hfind & _ & Hfound).
  destruct (prepared_ok s sp ch d 0 Hok Hwr Hev)
    as (s1' & Hprep' & _ & Hcov & _ & Hfirst & _ & _ & Hspb & Hsame & _).
  rewrite Hprep in Hprep'. injection Hprep' as <-.
  assert (firstOffset s1 ≤ sp) as Hge.
  { destruct (needsAllocation s sp 0) eqn:En.
    - rewrite needsAllocation_spec in En; [|done|destruct Hwr, Hok; lia].
      apply bool_decide_eq_true in En. lia.
    - by rewrite Hsame. }
  destruct (Hfound Hge) as (Hidx & s2 & bi & Hrun & _ & Hzero & _).
  destruct (Hzero eq_refl) as [-> ->].
  destruct (findBlock_ok s1 sp Hok1) as (idx' & Hfind' & _ & Hfound').
  rewrite Hfind in Hfind'. injection Hfind' as <-.
  destruct (Hfound' Hge) as (_ & Hlo & Hhi). rewrite Hspb in Hlo, Hhi.
  exists s1, idx. split; [done|]. split; [done|]. split; [done|]. split; [done|].
  split; [done|]. split; [|split; [done|]].
  - destruct Hhi as [Hhi| ->]; [by left|].
    pose proof (ok_spb s Hok). unfold tailEnd in *. rewrite Hspb in *.
    destruct (decide (sp < firstOffset s1 +
                (Z.of_nat (length (m_memBlocks s1)) - 1 + 1) * m_samplesPerBlock s));
      [by left|right; split; [done|lia]].
  - intros Hlen. apply arr_get_set.
    assert (length (m_currentBlock s1) = length (m_currentBlock s)) as ->.
    { unfold prepared in Hprep. destruct (needsAllocation s sp 0); [|by simplify_eq].
      apply allocateBlocks_Some in Hprep as (lb & nb & _ & _ & ->). simpl.
      apply shiftLoop_length; lia. }
    destruct Hwr. lia.
Qed.

(** C9, evaluated where it fails. On the open file with the blocks 16, 20, 24
    and 28 and the cursors [4; -1] that six accepted calls of writeChannel
    leave (Crash_s6_reached), a write of zero samples of channel 0 at
    position 20 does what the claim says: it returns true, changes no block
    and lowers the cursor of channel 0 from 4 to 0, one less than the index of
    block 20. The same write at position 33, above the offset of the first
    resident block, does not return: the tail check calls allocateBlocks,
    which removes all four blocks and reads the offset of the last block of an
    empty window. *)
Theorem zero_length_write_null_tail :
  run (construct Scenario.file0 2 4) Crash.ops = Some Crash.s6 ∧
  m_file Crash.s6 = true ∧
  BlocksOk Crash.s6 ∧
  firstOffset Crash.s6 = 16 ∧
  m_currentBlock Crash.s6 = [4; -1] ∧
  writeChannel Crash.s6 20 0 [] 0 = Some (true, set_currentBlock Crash.s6 [0; -1]) ∧
  WriteOk Crash.s6 33 0 [] 0 ∧
  needsAllocation Crash.s6 33 0 = true ∧
  evicted Crash.s6 = length (m_memBlocks Crash.s6) ∧
  allocateBlocks Crash.s6 33 0 = None ∧
  writeChannel Crash.s6 33 0 [] 0 = None.
Proof.
  split; [vm_compute; reflexivity|]. split; [reflexivity|].
  split; [exact Crash_s6_blocks|].
  do 3 (split; [vm_compute; reflexivity|]).
  split; [split; vm_compute; (split; discriminate || reflexivity) || discriminate|].
  do 3 (split; [vm_compute; reflexivity|]). vm_compute. reflexivity.
Qed.

(** C10. The destructor reads the first block of the window for the final
    partial flush. After any sequence of operations in which openFile has
    returned true at least once the window holds a block and the access is in
    bounds (the destructor completes); without a successful openFile the
    window is empty and there is no block to access. *)
Theorem teardown_first_block f nCh spb ops s :
  run (construct f nCh spb) ops = Some s →
  ((0 < opens ops)%nat → m_memBlocks s ≠ [] ∧ is_Some (destructor s)) ∧
  (opens ops = 0%nat → m_memBlocks s = [] ∧ destructor s = None).
Proof.
  intros Hrun. pose proof (run_nonempty _ _ _ Hrun) as Hne. simpl in Hne. split.
  - intros Hopen.
    assert (m_memBlocks s ≠ []) as Hb by (intros Hnil; apply Hne in Hnil; lia).
    split; [done|].
    destruct (m_memBlocks s) as [|b0 bs] eqn:Eb using rev_ind; [done|].
    erewrite destructor_snoc by done. done.
  - intros Hopen.
    assert (m_memBlocks s = []) as Hb by (by apply Hne).
    split; [done|]. by apply destructor_nil.
Qed.

Lemma teardown_first_block_witness :
  run (construct Scenario.file0 2 4) Scenario.ops3 = Some Scenario.s3 ∧
  (0 < opens Scenario.ops3)%nat ∧
  is_Some (destructor Scenario.s3).
Proof.
  split; [vm_compute; reflexivity|]. split; [vm_compute; lia|].
  refine (proj2 (proj1 (teardown_first_block Scenario.file0 2 4 Scenario.ops3 Scenario.s3 _) _)).
  - vm_compute. reflexivity.
  - vm_compute. lia.
Defined.

(** * Further properties of the code *)

(** ** openFile *)

(** X1. On a freshly constructed object, with at least one channel, at least
    one sample per block and a block that fits an int, a successful openFile
    returns true and leaves a well-formed window: the stream open and
    untouched, one zero-filled block of nChannels * samplesPerBlock samples at
    offset 0, every cursor at -1 and the fill mark at 0. *)
Theorem open_fresh_window f nCh spb :
  1 ≤ nCh → 1 ≤ spb → nCh * spb < 2 ^ 31 →
  let r := openFile (construct f nCh spb) true in
  r.1 = true ∧ m_file r.2 = true ∧ backing r.2 = f ∧ WindowOk r.2 ∧
  m_memBlocks r.2 = [{| getOffset := 0; getData := replicate (Z.to_nat (nCh * spb)) 0 |}] ∧
  m_currentBlock r.2 = replicate (Z.to_nat nCh) (-1) ∧
  m_lastBlockFill r.2 = 0.
Proof.
  intros HnCh Hspb Hint r. subst r.
  split; [done|]. split; [done|]. split; [done|]. split; [by apply open_WindowOk|].
  simpl. unfold newFileBlock. rewrite i32_id by nia. done.
Qed.

Lemma open_fresh_window_witness :
  WindowOk (openFile (construct Scenario.file0 2 4) true).2 ∧
  m_memBlocks (openFile (construct Scenario.file0 2 4) true).2 =
    [{| getOffset := 0; getData := replicate 8 0 |}].
Proof.
  destruct (open_fresh_window Scenario.file0 2 4) as (_ & _ & _ & Hok & Hb & _); [lia..|].
  split; [exact Hok|exact Hb].
Defined.

(** X2. An object that is opened and destroyed without a write leaves the
    stream as it found it: the only block is flushed up to the fill mark 0. *)
Theorem unwritten_file_stays_empty f nCh spb :
  destructor (openFile (construct f nCh spb) true).2 = Some f.
Proof.
  erewrite (destructor_snoc _ []) by done. simpl.
  unfold partialFlush, stream_write. rewrite Z.mul_0_l. simpl.
  destruct f as [w [|]]; simpl; [done|]. by rewrite app_nil_r.
Qed.

(** ** writeChannel *)

Lemma set_currentBlock_id s : set_currentBlock s (m_currentBlock s) = s.
Proof. by destruct s. Qed.

(** A call on an open file, within the contract, that returns: the window the
    tail check hands over, and what the loop and the cursor update make of
    it. *)
Lemma writeChannel_inv s sp ch d n r s' :
  BlocksOk s → WriteOk s sp ch d n → m_file s = true →
  writeChannel s sp ch d n = Some (r, s') →
  ∃ s1 s2 cur,
    prepared s sp n = Some s1 ∧ BlocksOk s1 ∧ sp + n ≤ tailEnd s1 ∧
    firstOffset s ≤ firstOffset s1 ∧ tailEnd s ≤ tailEnd s1 ∧
    m_nChannels s1 = m_nChannels s ∧ m_samplesPerBlock s1 = m_samplesPerBlock s ∧
    m_file s1 = true ∧
    (sp + n ≤ tailEnd s → s1 = s) ∧
    SameWindow s1 s2 ∧ s' = set_currentBlock s2 cur ∧
    (r = false → sp < firstOffset s1 ∧ s2 = s1 ∧ cur = m_currentBlock s1) ∧
    (r = true → firstOffset s1 ≤ sp ∧ ∃ v, cur = arr_set (m_currentBlock s1) ch v) ∧
    (r = true →
     ∀ (j : nat) row c, 0 ≤ row < m_samplesPerBlock s1 → 0 ≤ c < m_nChannels s1 →
       cell s2 j row c =
       if decide (c = ch ∧
                  sp ≤ firstOffset s1 + Z.of_nat j * m_samplesPerBlock s1 + row < sp + n)
       then d !! Z.to_nat (firstOffset s1 + Z.of_nat j * m_samplesPerBlock s1 + row - sp)
       else cell s1 j row c).
Proof.
  intros Hok Hwr Hopen Hres.
  pose proof (writeChannel_Some_evicted _ _ _ _ _ _ _ Hopen Hres) as Hev.
  destruct (writeChannel_ok s sp ch d n Hok Hwr Hopen Hev)
    as (s1 & idx & Hprep & Hok1 & Hfind & Hstale & Hfound).
  destruct (prepared_ok s sp ch d n Hok Hwr Hev)
    as (s1' & Hprep' & _ & Hcov & Hf1 & Hf2 & Hfile & HnCh & Hspb & Hsame & _).
  rewrite Hprep in Hprep'. simplify_eq.
  assert (tailEnd s ≤ tailEnd s1') as Htail.
  { destruct (needsAllocation s sp n) eqn:En; [|by rewrite Hsame].
    rewrite needsAllocation_spec in En; [|done|destruct Hwr, Hok; lia].
    apply bool_decide_eq_true in En. lia. }
  assert (sp + n ≤ tailEnd s → s1' = s) as Hcovered.
  { intros Hc. apply Hsame. rewrite needsAllocation_spec; [|done|destruct Hwr, Hok; lia].
    apply bool_decide_eq_false. lia. }
  destruct (decide (sp < firstOffset s1')) as [Hlt|Hge].
  - destruct (Hstale Hlt) as [_ Hf]. rewrite Hf in Hres. simplify_eq.
    exists s', s', (m_currentBlock s').
    split_and!; try done; try congruence;
      first [apply SameWindow_refl | symmetry; apply set_currentBlock_id].
  - destruct (Hfound ltac:(lia)) as (_ & s2 & bi & Hrun & Hsw & _ & Hcells).
    rewrite Hrun in Hres. simplify_eq.
    exists s1', s2, (arr_set (m_currentBlock s2) ch (bi - 1)).
    split_and!; try done; try congruence; try lia.
    intros _. split; [lia|]. rewrite (same_cursors _ _ Hsw). by eexists.
Qed.

(** X3. A call of writeChannel within its contract keeps the window well
    formed, whatever it returns: the blocks stay contiguous from the first
    offset, each of the full block size, and the channel count, the block
    length and the stream pointer are as before. *)
Theorem write_keeps_window s sp ch d n r s' :
  BlocksOk s → WriteOk s sp ch d n →
  writeChannel s sp ch d n = Some (r, s') →
  BlocksOk s' ∧ m_nChannels s' = m_nChannels s ∧
  m_samplesPerBlock s' = m_samplesPerBlock s ∧ m_blockSize s' = m_blockSize s ∧
  m_file s' = m_file s.
Proof.
  intros Hok Hwr Hres. destruct (m_file s) eqn:Ef.
  2: { rewrite writeChannel_closed in Hres by done. by simplify_eq. }
  destruct (writeChannel_inv _ _ _ _ _ _ _ Hok Hwr Ef Hres)
    as (s1 & s2 & cur & Hprep & Hok1 & _ & _ & _ & HnCh & Hspb & Hf & _ & Hsw & -> & _).
  pose proof (SameWindow_BlocksOk _ _ Hsw Hok1) as Hok2.
  destruct Hsw. simpl. split; [by destruct Hok2|].
  split_and!; try congruence.
  destruct Hok, Hok1. congruence.
Qed.

Lemma write_keeps_window_witness :
  BlocksOk Scenario.s3 ∧ WriteOk Scenario.s3 9 1 [70; 71; 72; 73] 4 ∧
  ∃ s', writeChannel Scenario.s3 9 1 [70; 71; 72; 73] 4 = Some (true, s') ∧
        offsets s' = [0; 4; 8; 12] ∧ BlocksOk s'.
Proof.
  assert (WriteOk Scenario.s3 9 1 [70; 71; 72; 73] 4) as Hwr
    by (split; vm_compute; (split; discriminate || reflexivity) || discriminate || reflexivity).
  split; [exact (proj1 Scenario_s3_ok)|]. split; [exact Hwr|].
  eexists. split; [vm_compute; reflexivity|]. split; [vm_compute; reflexivity|].
  refine (proj1 (write_keeps_window Scenario.s3 9 1 [70; 71; 72; 73] 4 true _
                   (proj1 Scenario_s3_ok) Hwr _)).
  vm_compute. reflexivity.
Defined.

(** X4. A write that the tail block already covers does no I/O and moves no
    block: the stream and the offsets of the window are as before, a rejected
    call returns the state unchanged, and an accepted one changes no cursor but
    that of its channel. *)
Theorem covered_write_no_flush s sp ch d n r s' :
  BlocksOk s → WriteOk s sp ch d n → sp + n ≤ tailEnd s →
  writeChannel s sp ch d n = Some (r, s') →
  backing s' = backing s ∧ offsets s' = offsets s ∧
  (r = false → s' = s) ∧
  (r = true → ∃ v, m_currentBlock s' = arr_set (m_currentBlock s) ch v).
Proof.
  intros Hok Hwr Hcov Hres. destruct (m_file s) eqn:Ef.
  2: { rewrite writeChannel_closed in Hres by done. by simplify_eq. }
  destruct (writeChannel_inv _ _ _ _ _ _ _ Hok Hwr Ef Hres)
    as (s1 & s2 & cur & Hprep & Hok1 & _ & _ & _ & _ & _ & _ & Hsame & Hsw & -> & Hf & Ht & _).
  rewrite (Hsame Hcov) in *. destruct Hsw. simpl. split; [done|]. split; [done|]. split.
  - intros Hr. destruct (Hf Hr) as (_ & -> & ->). apply set_currentBlock_id.
  - intros Hr. by destruct (Ht Hr) as [_ ?].
Qed.

Lemma covered_write_no_flush_witness :
  BlocksOk Scenario.s3 ∧ WriteOk Scenario.s3 2 1 [70; 71; 72; 73] 4 ∧
  ∃ s', writeChannel Scenario.s3 2 1 [70; 71; 72; 73] 4 = Some (true, s') ∧
        backing s' = backing Scenario.s3 ∧ offsets s' = offsets Scenario.s3.
Proof.
  assert (WriteOk Scenario.s3 2 1 [70; 71; 72; 73] 4) as Hwr
    by (split; vm_compute; (split; discriminate || reflexivity) || discriminate || reflexivity).
  split; [exact (proj1 Scenario_s3_ok)|]. split; [exact Hwr|].
  eexists. split; [vm_compute; reflexivity|].
  match goal with |- backing ?x = _ ∧ _ =>
    destruct (covered_write_no_flush Scenario.s3 2 1 [70; 71; 72; 73] 4 true x
                (proj1 Scenario_s3_ok) Hwr) as (Hb & Ho & _) end.
  - vm_compute. discriminate.
  - vm_compute. reflexivity.
  - split; [exact Hb|exact Ho].
Defined.

(** X5. An accepted write touches only its own samples: in the window the
    tail check hands over (the window of the call itself when the tail block
    covers the write), every cell of another channel, and every cell of the
    channel outside [startPos, startPos + nSamples), holds what it held. *)
Theorem write_leaves_other_cells s sp ch d n s' :
  BlocksOk s → WriteOk s sp ch d n →
  writeChannel s sp ch d n = Some (true, s') →
  ∃ s1,
    prepared s sp n = Some s1 ∧ (sp + n ≤ tailEnd s → s1 = s) ∧
    ∀ (j : nat) row c,
      0 ≤ row < m_samplesPerBlock s → 0 ≤ c < m_nChannels s →
      ¬ (c = ch ∧ sp ≤ firstOffset s1 + Z.of_nat j * m_samplesPerBlock s + row < sp + n) →
      cell s' j row c = cell s1 j row c.
Proof.
  intros Hok Hwr Hres. destruct (m_file s) eqn:Ef.
  2: { rewrite writeChannel_closed in Hres by done. simplify_eq. }
  destruct (writeChannel_inv _ _ _ _ _ _ _ Hok Hwr Ef Hres)
    as (s1 & s2 & cur & Hprep & Hok1 & _ & _ & _ & HnCh & Hspb & _ & Hsame & Hsw & -> & _ & _ & Hc).
  exists s1. split; [done|]. split; [done|]. intros j row c Hrow Hcol Hout.
  change (cell (set_currentBlock s2 cur) j row c) with (cell s2 j row c).
  rewrite (Hc eq_refl) by (rewrite ?Hspb, ?HnCh; done).
  rewrite Hspb. by rewrite decide_False.
Qed.

Lemma write_leaves_other_cells_witness :
  BlocksOk Scenario.s3 ∧ WriteOk Scenario.s3 2 1 [70; 71; 72; 73] 4 ∧
  ∃ s', writeChannel Scenario.s3 2 1 [70; 71; 72; 73] 4 = Some (true, s') ∧
        cell s' 0%nat 2 0 = Some 3.
Proof.
  assert (WriteOk Scenario.s3 2 1 [70; 71; 72; 73] 4) as Hwr
    by (split; vm_compute; (split; discriminate || reflexivity) || discriminate || reflexivity).
  split; [exact (proj1 Scenario_s3_ok)|]. split; [exact Hwr|].
  eexists. split; [vm_compute; reflexivity|].
  match goal with |- cell ?x _ _ _ = _ =>
    destruct (write_leaves_other_cells Scenario.s3 2 1 [70; 71; 72; 73] 4 x
                (proj1 Scenario_s3_ok) Hwr) as (s1 & Hprep & Hsame & Hcells) end.
  - vm_compute. reflexivity.
  - assert (s1 = Scenario.s3) as -> by (apply Hsame; vm_compute; discriminate).
    rewrite Hcells.
    + vm_compute. reflexivity.
    + vm_compute. split; [discriminate|reflexivity].
    + vm_compute. split; [discriminate|reflexivity].
    + intros [Hc _]. discriminate Hc.
Defined.

(** X6. The window only moves forward: after a call of writeChannel within its
    contract the offset of the first resident block and the end of the window
    are at least what they were. *)
Theorem window_moves_forward s sp ch d n r s' :
  BlocksOk s → WriteOk s sp ch d n →
  writeChannel s sp ch d n = Some (r, s') →
  firstOffset s ≤ firstOffset s' ∧ tailEnd s ≤ tailEnd s'.
Proof.
  intros Hok Hwr Hres. destruct (m_file s) eqn:Ef.
  2: { rewrite writeChannel_closed in Hres by done. by simplify_eq. }
  destruct (writeChannel_inv _ _ _ _ _ _ _ Hok Hwr Ef Hres)
    as (s1 & s2 & cur & Hprep & Hok1 & _ & Hf & Ht & _ & _ & _ & _ & Hsw & -> & _).
  change (firstOffset (set_currentBlock s2 cur)) with (firstOffset s2).
  change (tailEnd (set_currentBlock s2 cur)) with (tailEnd s2).
  rewrite (SameWindow_firstOffset _ _ Hsw), (SameWindow_tailEnd _ _ Hsw). done.
Qed.

Lemma window_moves_forward_witness :
  BlocksOk Stale.s3 ∧ WriteOk Stale.s3 0 0 (replicate 13 7) 13 ∧
  ∃ s', writeChannel Stale.s3 0 0 (replicate 13 7) 13 = Some (false, s') ∧
        firstOffset Stale.s3 ≤ firstOffset s' ∧ tailEnd Stale.s3 ≤ tailEnd s'.
Proof.
  assert (WriteOk Stale.s3 0 0 (replicate 13 7) 13) as Hwr
    by (split; vm_compute; (split; discriminate || reflexivity) || discriminate || reflexivity).
  split; [exact (proj1 Stale_s3_ok)|]. split; [exact Hwr|].
  eexists. split; [vm_compute; reflexivity|].
  apply (window_moves_forward Stale.s3 0 0 (replicate 13 7) 13 false _ (proj1 Stale_s3_ok) Hwr).
  vm_compute. reflexivity.
Defined.

(** ** allocateBlocks *)

Lemma allocateBlocks_count s sp n s' :
  BlocksOk s → 0 ≤ sp → 0 ≤ n →
  tailEnd s < sp + n → sp + n - tailEnd s < 2 ^ 31 - 1 →
  sp + n + m_samplesPerBlock s < 2 ^ 64 →
  allocateBlocks s sp n = Some s' →
  m_memBlocks s' =
    drop (evicted s) (m_memBlocks s) ++
    freshBlocks (Z.to_nat ((sp + n - tailEnd s) / m_samplesPerBlock s + 1))
                (tailEnd s - m_samplesPerBlock s) (m_samplesPerBlock s) (m_blockSize s) ∧
  m_lastBlockFill s' = 0.
Proof.
  intros Hok Hsp Hn Hshort Hreach Hroom Ha.
  pose proof (allocateBlocks_Some_evicted _ _ _ _ Ha) as Hk.
  apply allocateBlocks_Some in Ha as (lb & nb & Hlast & Hnb & ->). simpl.
  rewrite getLast_drop in Hlast by done.
  destruct (BlocksOk_last s Hok) as (lb' & Hlb & Hoff).
  pose proof (BlocksOk_tailEnd s Hok) as Hte.
  rewrite Hlast in Hlb. simplify_eq. rewrite Hoff in *.
  rewrite newBlockCount_value in Hnb; try (destruct Hok; lia).
  simplify_eq.
  replace (sp + n - (tailEnd s - m_samplesPerBlock s + m_samplesPerBlock s))
    with (sp + n - tailEnd s) by lia.
  split; [done|].
  assert (0 ≤ (sp + n - tailEnd s) / m_samplesPerBlock s).
  { apply Z.div_pos; destruct Hok; lia. }
  destruct (0 <? _) eqn:E; [done|lia].
Qed.

(** X7. When the tail block cannot hold the end of a write, allocateBlocks
    appends floor (shortfall / samplesPerBlock) + 1 blocks behind the blocks it
    keeps and resets the fill mark to 0; the window then ends beyond the write,
    by at most one block, and is well formed. *)
Theorem allocation_covers s sp n s' :
  BlocksOk s → 0 ≤ sp → 0 ≤ n →
  tailEnd s < sp + n → sp + n - tailEnd s < 2 ^ 31 - 1 →
  sp + n + m_samplesPerBlock s < 2 ^ 64 →
  allocateBlocks s sp n = Some s' →
  Z.of_nat (length (m_memBlocks s')) =
    Z.of_nat (length (m_memBlocks s)) - Z.of_nat (evicted s) +
    ((sp + n - tailEnd s) / m_samplesPerBlock s + 1) ∧
  m_lastBlockFill s' = 0 ∧
  sp + n < tailEnd s' ≤ sp + n + m_samplesPerBlock s ∧
  BlocksOk s'.
Proof.
  intros Hok Hsp Hn Hshort Hreach Hroom Ha.
  pose proof (allocateBlocks_Some_evicted _ _ _ _ Ha) as Hk.
  destruct (allocateBlocks_count _ _ _ _ Hok Hsp Hn Hshort Hreach Hroom Ha) as [Hbs Hfill].
  destruct (allocateBlocks_ok s sp n Hok Hk Hsp Hn Hshort Hreach Hroom)
    as (s1 & Ha1 & Hok1 & Hcov & Hfirst & _ & _ & _ & Hspb & _).
  rewrite Ha in Ha1. simplify_eq.
  pose proof (ok_spb s Hok) as Hspb1.
  assert (0 ≤ (sp + n - tailEnd s) / m_samplesPerBlock s) as Hq by (apply Z.div_pos; lia).
  assert (Z.of_nat (length (m_memBlocks s1)) =
            Z.of_nat (length (m_memBlocks s)) - Z.of_nat (evicted s) +
            ((sp + n - tailEnd s) / m_samplesPerBlock s + 1)) as Hlen.
  { rewrite Hbs, length_app, length_drop, freshBlocks_length. lia. }
  split; [done|]. split; [done|]. split; [|done].
  pose proof (Z.mul_div_le (sp + n - tailEnd s) (m_samplesPerBlock s) ltac:(lia)).
  pose proof (Z.mul_succ_div_gt (sp + n - tailEnd s) (m_samplesPerBlock s) ltac:(lia)).
  unfold tailEnd in *. rewrite Hfirst, Hspb, Hlen. nia.
Qed.

Lemma allocation_covers_witness :
  BlocksOk Scenario.s0 ∧ tailEnd Scenario.s0 < 4 + 4 ∧
  offsets <$> allocateBlocks Scenario.s0 4 4 = Some [0; 4; 8] ∧
  ∃ s', allocateBlocks Scenario.s0 4 4 = Some s' ∧
        Z.of_nat (length (m_memBlocks s')) = 1 - 0 + (4 / 4 + 1) ∧
        4 + 4 < tailEnd s' ≤ 4 + 4 + 4.
Proof.
  assert (BlocksOk Scenario.s0) as Hok by (apply (open_WindowOk Scenario.file0 2 4); lia).
  split; [exact Hok|]. split; [vm_compute; reflexivity|]. split; [vm_compute; reflexivity|].
  eexists. split; [vm_compute; reflexivity|].
  match goal with |- Z.of_nat (length (m_memBlocks ?x)) = _ ∧ _ =>
    destruct (allocation_covers Scenario.s0 4 4 x Hok) as (Hlen & _ & Hcov & _) end;
    try (vm_compute; reflexivity || discriminate).
  split; [exact Hlen|exact Hcov].
Defined.

Lemma freshBlocks_concat n : ∀ lo spb blockSize,
  concat (getData <$> freshBlocks n lo spb blockSize) =
  replicate (n * Z.to_nat blockSize) 0.
Proof.
  induction n as [|n IH]; intros lo spb blockSize; simpl; [done|].
  by rewrite IH, replicate_add.
Qed.

(** X8. Eviction loses and reorders nothing: on a stream that accepts writes,
    allocateBlocks appends to the stream the blocks it removes, in full, in
    the order of the window, and keeps the other blocks as they are, so that
    the stream followed by the resident blocks reads as before, followed by the
    zeros of the new blocks. (The flush of a removed block is the one the
    specification describes: the whole block, appended to the stream.) *)
Theorem eviction_keeps_file_image s si n s' :
  failing (backing s) = false →
  allocateBlocks s si n = Some s' →
  failing (backing s') = false ∧
  written (backing s') =
    written (backing s) ++ concat (getData <$> take (evicted s) (m_memBlocks s)) ∧
  (∀ i : nat, (evicted s + i < length (m_memBlocks s))%nat →
     m_memBlocks s' !! i = m_memBlocks s !! (evicted s + i)%nat) ∧
  ∃ k : nat, fileImage s' = fileImage s ++ replicate k 0.
Proof.
  intros Hf Ha.
  pose proof (allocateBlocks_Some_evicted _ _ _ _ Ha) as Hk.
  apply allocateBlocks_Some in Ha as (lb & nb & Hlast & Hnb & ->).
  destruct (destroyBlocks_written (backing s) (take (evicted s) (m_memBlocks s)) Hf)
    as [Hf' Hw].
  simpl. split; [done|]. split; [done|]. split.
  - intros i Hi. rewrite lookup_app_l by (rewrite length_drop; lia).
    by rewrite lookup_drop.
  - exists (Z.to_nat nb * Z.to_nat (m_blockSize s))%nat.
    unfold fileImage. simpl. rewrite Hw, fmap_app, concat_app, freshBlocks_concat.
    rewrite <-!app_assoc. f_equal. rewrite app_assoc. f_equal.
    by rewrite <-concat_app, <-fmap_app, take_drop.
Qed.

Lemma eviction_keeps_file_image_witness :
  failing (backing Lagging.s2) = false ∧
  ∃ s', allocateBlocks Lagging.s2 8 1 = Some s' ∧
        written (backing s') = written (backing Lagging.s2) ++
          concat (getData <$> take (evicted Lagging.s2) (m_memBlocks Lagging.s2)).
Proof.
  split; [vm_compute; reflexivity|].
  eexists. split; [vm_compute; reflexivity|].
  match goal with |- written (backing ?x) = _ =>
    destruct (eviction_keeps_file_image Lagging.s2 8 1 x) as (_ & Hw & _) end.
  - vm_compute. reflexivity.
  - vm_compute. reflexivity.
  - exact Hw.
Defined.

Lemma shiftLoop_lookup n : ∀ i cur mb (j : nat) c,
  0 ≤ i → i + Z.of_nat n ≤ Z.of_nat (length cur) →
  cur !! j = Some c →
  shiftLoop n i cur mb !! j =
  Some (if decide (i ≤ Z.of_nat j < i + Z.of_nat n) then i32 (c - mb) else c).
Proof.
  induction n as [|n IH]; intros i cur mb j c Hi Hn Hj; simpl.
  - rewrite Hj. by rewrite decide_False by lia.
  - assert (arr_set cur i (i32 (arr_get cur i - mb)) =
            <[Z.to_nat i := i32 (arr_get cur i - mb)]> cur) as ->.
    { unfold arr_set. destruct (i <? 0) eqn:E1; [lia|].
      by destruct (i <? Z.of_nat (length cur)) eqn:E2; [|lia]. }
    destruct (decide (Z.of_nat j = i)) as [Heq|Hne].
    + erewrite IH; [|lia|rewrite length_insert; lia|].
      2: { replace (Z.to_nat i) with j by lia. apply list_lookup_insert_eq.
           by eapply lookup_lt_Some. }
      rewrite decide_False by lia. rewrite decide_True by lia. do 3 f_equal.
      unfold arr_get. destruct ((0 <=? i) && (i <? Z.of_nat (length cur))) eqn:E; [|lia].
      replace (Z.to_nat i) with j by lia. by rewrite Hj.
    + erewrite IH; [|lia|rewrite length_insert; lia|].
      2: { rewrite list_lookup_insert_ne by lia. done. }
      f_equal. repeat case_decide; done || lia.
Qed.

(** X9. Eviction keeps the cursors on their blocks: when allocateBlocks
    removes blocks from the front of the window, the cursor of every channel
    that has written (a cursor that is the index of a resident block) is
    lowered by the number of blocks removed and designates the same block as
    before. *)
Theorem eviction_keeps_cursor_targets s si n s' (ch : nat) c :
  CursorsOk s → allocateBlocks s si n = Some s' →
  m_currentBlock s !! ch = Some c → 0 ≤ c < 2 ^ 31 →
  m_currentBlock s' !! ch = Some (c - Z.of_nat (evicted s)) ∧
  0 ≤ c - Z.of_nat (evicted s) ∧
  m_memBlocks s' !! Z.to_nat (c - Z.of_nat (evicted s)) = m_memBlocks s !! Z.to_nat c.
Proof.
  intros [Hlen Hcur] Ha Hc Hpos.
  pose proof (Hcur c ltac:(by eapply list_elem_of_lookup_2)) as Hclt.
  pose proof (lookup_lt_Some _ _ _ Hc) as Hch.
  destruct (minBlockLoop_le (Z.to_nat (m_nChannels s)) 0 (m_currentBlock s) 4294967295)
    as [_ Hall].
  specialize (Hall (Z.of_nat ch) ltac:(lia)). fold (minBlock s) in Hall.
  assert (arr_get (m_currentBlock s) (0 + Z.of_nat ch) = c) as Hget.
  { unfold arr_get. rewrite Z.add_0_l.
    destruct ((0 <=? Z.of_nat ch) && (Z.of_nat ch <? Z.of_nat (length (m_currentBlock s))))
      eqn:E; [|lia]. by rewrite Nat2Z.id, Hc. }
  rewrite Hget in Hall. replace (u32 c) with c in Hall by (unfold u32; zdiv).
  assert (0 ≤ minBlock s) as Hmb.
  { unfold minBlock.
    destruct (minBlockLoop_cases (Z.to_nat (m_nChannels s)) 0 (m_currentBlock s) 4294967295)
      as [->|[j' ->]]; [done|apply u32_range]. }
  assert (Z.of_nat (evicted s) = minBlock s) as Hk.
  { unfold evicted. rewrite Z.add_0_l, i32_idem, (i32_id (minBlock s)) by lia.
    unfold jlimit. repeat case_match; lia. }
  apply allocateBlocks_Some in Ha as (lb & nb & Hlast & Hnb & ->). simpl.
  rewrite Hk. split; [|split; [lia|]].
  - erewrite shiftLoop_lookup; [|lia|lia|done].
    rewrite decide_True by lia. rewrite i32_id by lia. done.
  - rewrite lookup_app_l by (rewrite length_drop; lia).
    rewrite lookup_drop. f_equal. lia.
Qed.

Lemma eviction_keeps_cursor_targets_witness :
  CursorsOk Stale.s3 ∧ m_currentBlock Stale.s3 !! 0%nat = Some 1 ∧
  ∃ s', allocateBlocks Stale.s3 12 1 = Some s' ∧
        m_currentBlock s' !! 0%nat = Some (1 - Z.of_nat (evicted Stale.s3)) ∧
        evicted Stale.s3 = 1%nat.
Proof.
  split; [exact (proj2 Stale_s3_ok)|]. split; [reflexivity|].
  eexists. split; [vm_compute; reflexivity|].
  split; [|vm_compute; reflexivity].
  match goal with |- m_currentBlock ?x !! _ = _ =>
    destruct (eviction_keeps_cursor_targets Stale.s3 12 1 x 0 1 (proj2 Stale_s3_ok))
      as (Hcur & _) end.
  - vm_compute. reflexivity.
  - reflexivity.
  - lia.
  - exact Hcur.
Defined.

Lemma minBlockLoop_unwritten n : ∀ i cur,
  (∀ j, i ≤ j < i + Z.of_nat n → arr_get cur j = -1) →
  minBlockLoop n i cur 4294967295 = 4294967295.
Proof.
  induction n as [|n IH]; intros i cur Hall; simpl; [done|].
  rewrite (Hall i) by lia. change (u32 (-1) <? 4294967295) with false. simpl.
  apply IH. intros j Hj. apply Hall. lia.
Qed.

(** X10. An allocation before any channel has a block: when every cursor is
    -1, as openFile leaves them, allocateBlocks takes the least cursor for
    0xFFFFFFFF, removes no block, writes nothing to the stream, and the
    unsigned subtraction sets every cursor to 0. *)
Theorem first_allocation_zeroes_cursors s si n s' :
  m_currentBlock s = replicate (Z.to_nat (m_nChannels s)) (-1) →
  allocateBlocks s si n = Some s' →
  evicted s = 0%nat ∧ backing s' = backing s ∧
  (∀ i : nat, (i < length (m_memBlocks s))%nat → m_memBlocks s' !! i = m_memBlocks s !! i) ∧
  m_currentBlock s' = replicate (Z.to_nat (m_nChannels s)) 0.
Proof.
  intros Hcur Ha.
  assert (minBlock s = 4294967295) as Hmb.
  { unfold minBlock. apply minBlockLoop_unwritten. intros j Hj. rewrite Hcur.
    unfold arr_get. rewrite length_replicate.
    destruct ((0 <=? j) && (j <? Z.of_nat (Z.to_nat (m_nChannels s)))) eqn:E.
    - rewrite lookup_replicate_2 by lia. done.
    - apply andb_false_iff in E as [E%Z.leb_gt|E%Z.ltb_ge]; lia. }
  assert (evicted s = 0%nat) as Hk.
  { unfold evicted. rewrite Hmb. unfold jlimit. change (i32 (0 + i32 4294967295)) with (-1).
    repeat case_match; lia. }
  apply allocateBlocks_Some in Ha as (lb & nb & _ & _ & ->). simpl.
  rewrite Hk, Hmb. simpl. split; [done|]. split; [done|]. split.
  - intros i Hi. by rewrite lookup_app_l.
  - apply list_eq_same_length with (Z.to_nat (m_nChannels s)).
    + by rewrite length_replicate.
    + rewrite shiftLoop_length; rewrite ?Hcur, ?length_replicate; lia.
    + intros i x y Hi Hx Hy. apply lookup_replicate in Hy as [-> _].
      erewrite shiftLoop_lookup in Hx; [|lia|rewrite Hcur, length_replicate; lia|].
      2: { rewrite Hcur. by apply lookup_replicate_2. }
      rewrite decide_True in Hx by lia. by simplify_eq.
Qed.

Lemma first_allocation_zeroes_cursors_witness :
  m_currentBlock Scenario.s0 = [-1; -1] ∧
  ∃ s', allocateBlocks Scenario.s0 4 4 = Some s' ∧ m_currentBlock s' = [0; 0].
Proof.
  split; [reflexivity|]. eexists. split; [vm_compute; reflexivity|].
  match goal with |- m_currentBlock ?x = _ =>
    destruct (first_allocation_zeroes_cursors Scenario.s0 4 4 x) as (_ & _ & _ & Hc) end.
  - reflexivity.
  - vm_compute. reflexivity.
  - exact Hc.
Defined.

(** ** The stream and the window *)

Lemma concat_length_const (bs : list FileBlock) m :
  (∀ (i : nat) b, bs !! i = Some b → Z.of_nat (length (getData b)) = m) →
  Z.of_nat (length (concat (getData <$> bs))) = Z.of_nat (length bs) * m.
Proof.
  induction bs as [|b bs IH]; intros Hall; [simpl; lia|].
  rewrite fmap_cons, concat_cons, length_app, length_cons, Nat2Z.inj_add.
  rewrite IH, (Hall 0%nat b eq_refl); [lia|].
  intros i b' Hi. by apply (Hall (S i)).
Qed.

Lemma allocateBlocks_DiskOk s si n s' :
  BlocksOk s → DiskOk s → allocateBlocks s si n = Some s' → DiskOk s'.
Proof.
  intros Hok [Hf Hw] Ha.
  pose proof (allocateBlocks_Some_evicted _ _ _ _ Ha) as Hk.
  destruct (lookup_lt_is_Some_2 (m_memBlocks s) (evicted s) Hk) as [b Hb].
  apply allocateBlocks_Some in Ha as (lb & nb & Hlast & Hnb & ->).
  destruct (destroyBlocks_written (backing s) (take (evicted s) (m_memBlocks s)) Hf)
    as [Hf' Hw'].
  split; simpl; [done|].
  rewrite Hw', length_app, Nat2Z.inj_add, Hw.
  rewrite (concat_length_const _ (m_blockSize s)).
  2: { intros i b' Hi. rewrite lookup_take_Some in Hi. destruct Hi as [Hi _].
       by eapply ok_data. }
  rewrite length_take, (ok_blockSize s Hok).
  unfold firstOffset at 2. simpl.
  rewrite (drop_S _ _ _ Hb). simpl.
  rewrite (ok_offsets s Hok _ _ Hb). lia.
Qed.

(** X11. The stream keeps step with the window: if the stream accepts writes
    and holds exactly the rows below the first resident block (first offset
    times channel count samples), then so it does after any call of
    writeChannel within its contract, whether the call evicts blocks, rejects
    the write or copies it. (The flush of an evicted block is the one the
    specification describes: the whole block, appended to the stream.) *)
Theorem stream_holds_rows_below_window s sp ch d n r s' :
  BlocksOk s → DiskOk s → WriteOk s sp ch d n →
  writeChannel s sp ch d n = Some (r, s') →
  DiskOk s'.
Proof.
  intros Hok Hdisk Hwr Hres. destruct (m_file s) eqn:Ef.
  2: { rewrite writeChannel_closed in Hres by done. by simplify_eq. }
  destruct (writeChannel_inv _ _ _ _ _ _ _ Hok Hwr Ef Hres)
    as (s1 & s2 & cur & Hprep & Hok1 & _ & _ & _ & _ & _ & _ & _ & Hsw & -> & _).
  assert (DiskOk s1) as [Hf1 Hw1].
  { unfold prepared in Hprep. destruct (needsAllocation s sp n).
    - exact (allocateBlocks_DiskOk _ _ _ _ Hok Hdisk Hprep).
    - by simplify_eq. }
  unfold DiskOk.
  change (backing (set_currentBlock s2 cur)) with (backing s2).
  change (firstOffset (set_currentBlock s2 cur)) with (firstOffset s2).
  change (m_nChannels (set_currentBlock s2 cur)) with (m_nChannels s2).
  rewrite (same_backing _ _ Hsw), (SameWindow_firstOffset _ _ Hsw), (same_nChannels _ _ Hsw).
  done.
Qed.

Lemma stream_holds_rows_below_window_witness :
  DiskOk Lagging.s2 ∧
  ∃ s', writeChannel Lagging.s2 8 0 [5] 1 = Some (true, s') ∧
        DiskOk s' ∧ firstOffset s' = 4 ∧ length (written (backing s')) = 8%nat.
Proof.
  assert (WindowOk Lagging.s2) as [Hok _] by concrete_window.
  split; [split; vm_compute; reflexivity|].
  eexists. split; [vm_compute; reflexivity|].
  split; [|split; vm_compute; reflexivity].
  match goal with |- DiskOk ?x =>
    apply (stream_holds_rows_below_window Lagging.s2 8 0 [5] 1 true x) end.
  - exact Hok.
  - split; vm_compute; reflexivity.
  - split; vm_compute; try done; split; discriminate.
  - vm_compute. reflexivity.
Defined.

(** X12. Closing writes the file image up to the fill mark: on a stream that
    holds the rows below the window, the destructor leaves in the file
    exactly the image of the window (the stream followed by the resident
    blocks) cut after the row the fill mark names in the last block, that is
    (offset of the last block + fill mark) rows of channel count samples. *)
Theorem close_writes_filled_rows s :
  BlocksOk s → DiskOk s → 0 ≤ m_lastBlockFill s ≤ m_samplesPerBlock s →
  ∃ f, destructor s = Some f ∧ failing f = false ∧
       written f =
         take (Z.to_nat ((tailEnd s - m_samplesPerBlock s + m_lastBlockFill s) * m_nChannels s))
              (fileImage s) ∧
       Z.of_nat (length (written f)) =
         (tailEnd s - m_samplesPerBlock s + m_lastBlockFill s) * m_nChannels s.
Proof.
  intros Hok [Hf Hw] Hfill.
  pose proof (ok_spb s Hok) as Hspb. pose proof (ok_nChannels s Hok) as HnCh.
  pose proof (ok_int s Hok) as Hint. pose proof (ok_first s Hok) as Hfirst.
  destruct (exists_last (ok_nonempty s Hok)) as (bs & b & Hbs).
  rewrite (destructor_snoc s bs b Hbs). eexists. split; [done|].
  destruct (destroyBlocks_written (backing s) bs Hf) as [Hf' Hw'].
  unfold partialFlush, stream_write. rewrite Hf'. simpl.
  rewrite u64_id by nia.
  assert (Z.of_nat (length (concat (getData <$> bs))) =
          Z.of_nat (length bs) * m_blockSize s) as Hlen.
  { apply concat_length_const. intros i b' Hi. apply (ok_data s Hok i).
    rewrite Hbs. by apply lookup_app_l_Some. }
  assert (Z.of_nat (length (getData b)) = m_blockSize s) as Hb.
  { apply (ok_data s Hok (length bs)). rewrite Hbs. by apply list_lookup_middle. }
  rewrite (ok_blockSize s Hok) in Hlen, Hb.
  assert ((tailEnd s - m_samplesPerBlock s + m_lastBlockFill s) * m_nChannels s =
          Z.of_nat (length (written (backing s) ++ concat (getData <$> bs))) +
          m_lastBlockFill s * m_nChannels s) as HN.
  { unfold tailEnd. rewrite Hbs, !length_app, Nat2Z.inj_add. simpl. lia. }
  split; [done|]. split.
  - rewrite HN, Hw'. unfold fileImage. rewrite Hbs, fmap_app, concat_app. simpl.
    rewrite app_nil_r, app_assoc.
    rewrite Z2Nat.inj_add, Nat2Z.id by nia. by rewrite take_app_add.
  - rewrite HN, Hw', !length_app, length_take, !Nat2Z.inj_add. nia.
Qed.

Lemma close_writes_filled_rows_witness :
  DiskOk Scenario.s3 ∧ m_lastBlockFill Scenario.s3 = 1 ∧ tailEnd Scenario.s3 = 8 ∧
  ∃ f, destructor Scenario.s3 = Some f ∧ Z.of_nat (length (written f)) = (8 - 4 + 1) * 2.
Proof.
  split; [split; vm_compute; reflexivity|]. split; [vm_compute; reflexivity|].
  split; [vm_compute; reflexivity|].
  destruct (close_writes_filled_rows Scenario.s3 (proj1 Scenario_s3_ok))
    as (f & Hd & _ & _ & Hlen).
  - split; vm_compute; reflexivity.
  - vm_compute. split; discriminate.
  - exists f. split; [exact Hd|]. vm_compute in Hlen. vm_compute. exact Hlen.
Defined.

(** X13. The fill mark stays a row count of the last block and covers what was
    written there: after a call of writeChannel within its contract the fill
    mark is between 0 and samplesPerBlock if it was before, and after an
    accepted non-empty write that ends in the last block it is at least the
    row the write ends at. *)
Theorem fill_mark_bounded s sp ch d n r s' :
  BlocksOk s → WriteOk s sp ch d n →
  0 ≤ m_lastBlockFill s ≤ m_samplesPerBlock s →
  writeChannel s sp ch d n = Some (r, s') →
  0 ≤ m_lastBlockFill s' ≤ m_samplesPerBlock s' ∧
  (r = true → 0 < n → tailEnd s' - m_samplesPerBlock s' < sp + n →
   sp + n - (tailEnd s' - m_samplesPerBlock s') ≤ m_lastBlockFill s').
Proof.
  intros Hok Hwr Hfill Hres. destruct (m_file s) eqn:Ef.
  2: { rewrite writeChannel_closed in Hres by done. by simplify_eq. }
  destruct (writeChannel_inv _ _ _ _ _ _ _ Hok Hwr Ef Hres)
    as (s1 & s2 & cur & Hprep & Hok1 & Hcov & _ & _ & _ & Hspb & _ & _ & Hsw & -> & Hrej & _).
  pose proof (ok_spb s Hok) as Hspb0.
  assert (0 ≤ m_lastBlockFill s1 ≤ m_samplesPerBlock s) as Hfill1.
  { unfold prepared in Hprep. destruct (needsAllocation s sp n); [|by simplify_eq].
    apply allocateBlocks_Some in Hprep as (lb & nb & _ & _ & ->). simpl.
    destruct (0 <? nb); lia. }
  change (m_samplesPerBlock (set_currentBlock s2 cur)) with (m_samplesPerBlock s2).
  change (m_lastBlockFill (set_currentBlock s2 cur)) with (m_lastBlockFill s2).
  change (tailEnd (set_currentBlock s2 cur)) with (tailEnd s2).
  rewrite (same_spb _ _ Hsw), Hspb, (SameWindow_tailEnd _ _ Hsw).
  destruct r.
  - destruct (writeChannel_fill _ _ _ _ _ _ Hok Hwr Hres) as (s1' & Hprep' & Hte & Hmark).
    rewrite Hprep in Hprep'. simplify_eq.
    change (m_lastBlockFill (set_currentBlock s2 cur)) with (m_lastBlockFill s2) in Hmark.
    change (tailEnd (set_currentBlock s2 cur)) with (tailEnd s2) in Hmark, Hte.
    rewrite Hmark, Hte. clear Hmark. destruct (decide _); split; lia.
  - destruct (Hrej eq_refl) as (_ & -> & _). split; [lia|done].
Qed.

Lemma fill_mark_bounded_witness :
  m_lastBlockFill Scenario.s3 = 1 ∧
  ∃ s', writeChannel Scenario.s3 8 1 [70; 71; 72] 3 = Some (true, s') ∧
        0 ≤ m_lastBlockFill s' ≤ m_samplesPerBlock s' ∧ m_lastBlockFill s' = 3.
Proof.
  split; [vm_compute; reflexivity|].
  eexists. split; [vm_compute; reflexivity|]. split; [|vm_compute; reflexivity].
  match goal with |- _ ≤ m_lastBlockFill ?x ≤ _ =>
    destruct (fill_mark_bounded Scenario.s3 8 1 [70; 71; 72] 3 true x (proj1 Scenario_s3_ok))
      as [Hb _] end.
  - split; vm_compute; try done; split; discriminate.
  - vm_compute. split; discriminate.
  - vm_compute. reflexivity.
  - exact Hb.
Defined.

(** ** The cursor *)

(** The loop stops one past the block that holds the last sample of the
    run. *)
Lemma writeLoop_index ch data n sp fuel : ∀ s lbi bi w si smp di s' bi',
  BlocksOk s → 0 ≤ w → n < 2 ^ 31 → 0 ≤ bi →
  (w < n → 0 ≤ si < m_samplesPerBlock s ∧
           firstOffset s + bi * m_samplesPerBlock s + si = sp + w ∧
           sp + n ≤ tailEnd s) →
  writeLoop fuel s ch data n lbi bi w si smp di = Some (s', bi') →
  if decide (w < n)
  then firstOffset s + (bi' - 1) * m_samplesPerBlock s ≤ sp + n - 1
         < firstOffset s + bi' * m_samplesPerBlock s
  else bi' = bi.
Proof.
  induction fuel as [|fuel IH]; intros s lbi bi w si smp di s' bi' Hok Hw Hn Hbi Hinv Hrun.
  all: destruct (decide (w < n)) as [Hlt|Hge].
  all: try (rewrite writeLoop_done in Hrun by lia; by simplify_eq).
  { unfold writeLoop in Hrun. destruct (w <? n) eqn:E; [done|lia]. }
  destruct (Hinv Hlt) as (Hsi & Hpos & Hcov).
  pose proof (ok_spb s Hok) as Hspb. pose proof (ok_nChannels s Hok) as HnCh.
  pose proof (ok_int s Hok) as Hint.
  rewrite writeLoop_iter in Hrun by done.
  destruct (own_get (m_memBlocks s) bi) as [blk|] eqn:Hown; [|done]. simpl in Hrun.
  rewrite (i32_id (n - w)), (i32_id (m_samplesPerBlock s - si)), jmin_min in Hrun by nia.
  remember (Z.min (n - w) (m_samplesPerBlock s - si)) as stw eqn:Estw.
  destruct (copyLoop _ _ _ _ _ _ _ _) as [[bd di']|] eqn:Hcopy; [|done]. simpl in Hrun.
  rewrite (i32_id (w + stw)), (i32_id (si + stw)), (u64_id (si + stw)) in Hrun by nia.
  assert (SameWindow s (iterState s bi lbi blk bd (si + stw))) as Hsame.
  { apply iterState_same; [done|]. by eapply copyLoop_length. }
  pose proof (SameWindow_BlocksOk _ _ Hsame Hok) as Hok1.
  pose proof (SameWindow_firstOffset _ _ Hsame) as Hfo.
  pose proof (SameWindow_tailEnd _ _ Hsame) as Hte.
  pose proof (same_spb _ _ Hsame) as Hspb1.
  apply IH in Hrun; try (done || lia).
  rewrite Hfo, Hspb1 in Hrun.
  destruct (decide (w + stw < n)); [done|]. subst bi'. nia.
Qed.

Lemma div_between a b q : 0 < b → b * q ≤ a < b * (q + 1) → q = a / b.
Proof. intros Hb Hq. apply (Z.div_unique a b q (a - b * q)); lia. Qed.

(** The cursor an accepted write leaves: the index of the block that holds the
    last sample written, or, for an empty write, one below the block the scan
    stops at. *)
Lemma writeChannel_cursor s sp ch d n s' :
  BlocksOk s → WriteOk s sp ch d n →
  writeChannel s sp ch d n = Some (true, s') →
  ∃ s1 v,
    prepared s sp n = Some s1 ∧
    m_currentBlock s' = arr_set (m_currentBlock s1) ch v ∧
    -1 ≤ v < Z.of_nat (length (m_memBlocks s1)) ∧
    v = if decide (0 < n)
        then (sp + n - 1 - firstOffset s1) / m_samplesPerBlock s
        else Z.min ((sp - firstOffset s1) / m_samplesPerBlock s)
                   (Z.of_nat (length (m_memBlocks s1)) - 1) - 1.
Proof.
  intros Hok Hwr Hres. destruct (m_file s) eqn:Ef.
  2: { rewrite writeChannel_closed in Hres by done. simplify_eq. }
  pose proof (writeChannel_Some_evicted _ _ _ _ _ _ _ Ef Hres) as Hev.
  destruct (prepared_ok s sp ch d n Hok Hwr Hev)
    as (s1 & Hprep & Hok1 & Hcov & _ & _ & _ & _ & Hspb & _).
  rewrite writeChannel_open, Hprep in Hres by done. simpl in Hres.
  destruct (findBlock_ok s1 sp Hok1) as (idx & Hfind & Hstale & Hfound).
  rewrite Hfind in Hres. simpl in Hres.
  destruct (idx <? 0) eqn:E; [done|].
  destruct (decide (sp < firstOffset s1)) as [Hlt|Hge]; [specialize (Hstale Hlt); lia|].
  destruct (Hfound ltac:(lia)) as (Hidx & Hlo & Hhi).
  destruct (own_get (m_memBlocks s1) idx) as [blk|] eqn:Hown; [|done]. simpl in Hres.
  destruct (writeLoop _ _ _ _ _ _ _ _ _ _ _) as [[s2 bi]|] eqn:Hrun; [|done].
  simpl in Hres. simplify_eq. simpl.
  pose proof Hown as [_ Hblk]%own_get_Some.
  pose proof (ok_offsets s1 Hok1 _ _ Hblk) as Hoff. rewrite Z2Nat.id in Hoff by lia.
  pose proof (ok_spb s1 Hok1) as Hspb1. pose proof (ok_nChannels s1 Hok1) as HnCh.
  pose proof (ok_int s1 Hok1) as Hint. pose proof (ok_first s1 Hok1) as Hfirst.
  destruct Hwr as [Hch Hn Hd Hsp Hreach Hroom].
  assert (0 ≤ sp - getOffset blk ≤ m_samplesPerBlock s1) as Hsi.
  { unfold tailEnd in Hcov. nia. }
  rewrite (i32_id (sp - getOffset blk)) in Hrun by nia.
  pose proof (writeLoop_frame _ _ _ _ _ _ _ _ _ _ _ _ _ Hrun) as Hsame.
  apply (writeLoop_index ch d n sp) in Hrun; try (done || lia).
  2: { intros Hpos. unfold tailEnd in Hcov. split; [|split; [lia|done]].
       rewrite Hoff. destruct Hhi as [Hhi| ->]; lia. }
  exists s1, (bi - 1). split; [done|]. rewrite (same_cursors _ _ Hsame). split; [done|].
  rewrite <-Hspb. unfold tailEnd in Hcov.
  destruct (decide (0 < n)) as [Hpos|Hzero].
  - split; [nia|]. apply div_between; lia.
  - subst bi. split; [lia|]. f_equal.
    destruct Hhi as [Hhi| ->].
    + rewrite Z.min_l; [apply div_between; lia|].
      rewrite <-(div_between (sp - firstOffset s1) (m_samplesPerBlock s1) idx); lia.
    + rewrite Z.min_r; [done|].
      apply Z.div_le_lower_bound; lia.
Qed.

(** X14. After an accepted write of at least one sample the cursor of the
    channel is the index of the resident block that holds the last sample
    written. *)
Theorem cursor_marks_last_block s sp ch d n s' :
  WindowOk s → WriteOk s sp ch d n → 0 < n →
  writeChannel s sp ch d n = Some (true, s') →
  ∃ b, own_get (m_memBlocks s') (arr_get (m_currentBlock s') ch) = Some b ∧
       getOffset b ≤ sp + n - 1 < getOffset b + m_samplesPerBlock s.
Proof.
  intros [Hok Hcur] Hwr Hpos Hres. destruct (m_file s) eqn:Ef.
  2: { rewrite writeChannel_closed in Hres by done. simplify_eq. }
  destruct (writeChannel_cursor _ _ _ _ _ _ Hok Hwr Hres) as (s1 & v & Hprep & Hc & Hv & Hval).
  destruct (writeChannel_inv _ _ _ _ _ _ _ Hok Hwr Ef Hres)
    as (s1' & s2 & cur & Hprep' & Hok1 & Hcov & _ & _ & _ & Hspb & _ & _ & Hsw & -> & _ & Hacc & _).
  rewrite Hprep in Hprep'. injection Hprep' as <-.
  destruct (Hacc eq_refl) as [Hge _].
  destruct (prepared_cursors _ _ _ _ Hcur Hprep) as [Hlen1 HnCh1].
  destruct Hcur as [Hlen _]. pose proof (w_channel _ _ _ _ _ Hwr) as Hch.
  pose proof (ok_spb s Hok) as Hspb0. pose proof (ok_first s1 Hok1) as Hfirst.
  pose proof (SameWindow_BlocksOk _ _ Hsw Hok1) as Hok2.
  change (m_currentBlock (set_currentBlock s2 cur)) with cur in *.
  change (m_memBlocks (set_currentBlock s2 cur)) with (m_memBlocks s2).
  rewrite Hc, arr_get_set by lia.
  rewrite decide_True in Hval by done.
  assert (m_samplesPerBlock s * v ≤ sp + n - 1 - firstOffset s1
          < m_samplesPerBlock s * (v + 1)) as Hbetween.
  { rewrite Hval.
    pose proof (Z.mul_div_le (sp + n - 1 - firstOffset s1) (m_samplesPerBlock s) ltac:(lia)).
    pose proof (Z.mul_succ_div_gt (sp + n - 1 - firstOffset s1) (m_samplesPerBlock s)
                  ltac:(lia)).
    lia. }
  assert (0 ≤ v) as Hv0 by nia.
  rewrite <-(SameWindow_length _ _ Hsw) in Hv.
  destruct (lookup_lt_is_Some_2 (m_memBlocks s2) (Z.to_nat v) ltac:(lia)) as [b Hb].
  exists b. split.
  - unfold own_get. destruct ((0 <=? v) && _) eqn:E'; [done|lia].
  - rewrite (ok_offsets s2 Hok2 _ _ Hb), (SameWindow_firstOffset _ _ Hsw),
      (same_spb _ _ Hsw), Hspb, Z2Nat.id by lia. lia.
Qed.

Lemma cursor_marks_last_block_witness :
  ∃ s', writeChannel Scenario.s3 2 1 [70; 71; 72; 73] 4 = Some (true, s') ∧
        arr_get (m_currentBlock s') 1 = 1 ∧
        ∃ b, own_get (m_memBlocks s') (arr_get (m_currentBlock s') 1) = Some b ∧
             getOffset b ≤ 2 + 4 - 1 < getOffset b + m_samplesPerBlock Scenario.s3.
Proof.
  eexists. split; [vm_compute; reflexivity|]. split; [vm_compute; reflexivity|].
  match goal with |- ∃ b, own_get (m_memBlocks ?x) _ = _ ∧ _ =>
    apply (cursor_marks_last_block Scenario.s3 2 1 [70; 71; 72; 73] 4 x Scenario_s3_ok) end.
  - split; vm_compute; try done; split; discriminate.
  - lia.
  - vm_compute. reflexivity.
Defined.

(** ** Writes of different channels *)

(** Blocks are determined by their offsets and their cells. *)
Lemma blocks_ext s s' :
  BlocksOk s → BlocksOk s' →
  m_nChannels s' = m_nChannels s → m_samplesPerBlock s' = m_samplesPerBlock s →
  offsets s' = offsets s →
  (∀ (j : nat) r c, 0 ≤ r < m_samplesPerBlock s → 0 ≤ c < m_nChannels s →
     cell s' j r c = cell s j r c) →
  m_memBlocks s' = m_memBlocks s.
Proof.
  intros Hok Hok' HnCh Hspb Hoffs Hcells.
  pose proof (ok_nChannels s Hok) as H1. pose proof (ok_spb s Hok) as H2.
  assert (m_blockSize s' = m_blockSize s) as Hbsz.
  { rewrite (ok_blockSize s Hok), (ok_blockSize s' Hok'). congruence. }
  assert (length (m_memBlocks s') = length (m_memBlocks s)) as Hlen.
  { apply (f_equal length) in Hoffs. unfold offsets in Hoffs.
    by rewrite !length_fmap in Hoffs. }
  apply list_eq_same_length with (length (m_memBlocks s)); [done..|].
  intros j b' b Hj Hb' Hb.
  assert (getOffset b' = getOffset b) as Ho.
  { assert (offsets s' !! j = Some (getOffset b')) as Ho'
      by (unfold offsets; by rewrite list_lookup_fmap, Hb').
    rewrite Hoffs in Ho'. unfold offsets in Ho'. rewrite list_lookup_fmap, Hb in Ho'.
    simpl in Ho'. congruence. }
  assert (getData b' = getData b) as Hd.
  { pose proof (ok_data s Hok _ _ Hb) as Hl. pose proof (ok_data s' Hok' _ _ Hb') as Hl'.
    rewrite (ok_blockSize s Hok) in Hbsz, Hl. rewrite Hbsz in Hl'.
    apply list_eq_same_length with (length (getData b)); [done|lia|].
    intros i x' x Hi Hx' Hx.
    assert (0 ≤ Z.of_nat i `div` m_nChannels s < m_samplesPerBlock s) as Hr.
    { split; [apply Z.div_pos; lia|]. apply Z.div_lt_upper_bound; lia. }
    pose proof (Z.mod_pos_bound (Z.of_nat i) (m_nChannels s) ltac:(lia)) as Hc.
    specialize (Hcells j _ _ Hr Hc). unfold cell in Hcells.
    rewrite Hb, Hb', HnCh in Hcells. simpl in Hcells.
    replace (Z.to_nat (Z.of_nat i `div` m_nChannels s * m_nChannels s +
                       Z.of_nat i `mod` m_nChannels s)) with i in Hcells.
    2: { pose proof (Z.div_mod (Z.of_nat i) (m_nChannels s) ltac:(lia)). lia. }
    congruence. }
  destruct b, b'. simpl in *. congruence.
Qed.

Lemma state_ext s s' :
  m_file s' = m_file s → backing s' = backing s → m_nChannels s' = m_nChannels s →
  m_samplesPerBlock s' = m_samplesPerBlock s → m_blockSize s' = m_blockSize s →
  m_memBlocks s' = m_memBlocks s → m_currentBlock s' = m_currentBlock s →
  m_lastBlockFill s' = m_lastBlockFill s → s' = s.
Proof. destruct s, s'. simpl. congruence. Qed.

(** An accepted write that the window covers, in full: nothing is allocated or
    flushed, the cells of the run take the samples, the cursor of the channel
    and the fill mark are set. *)
Lemma covered_write s sp ch d n :
  BlocksOk s → Z.of_nat (length (m_currentBlock s)) = m_nChannels s →
  WriteOk s sp ch d n → m_file s = true →
  firstOffset s ≤ sp → sp + n ≤ tailEnd s →
  ∃ s',
    writeChannel s sp ch d n = Some (true, s') ∧
    BlocksOk s' ∧ SameWindow s (set_currentBlock s' (m_currentBlock s)) ∧
    m_currentBlock s' =
      <[Z.to_nat ch :=
          if decide (0 < n)
          then (sp + n - 1 - firstOffset s) / m_samplesPerBlock s
          else Z.min ((sp - firstOffset s) / m_samplesPerBlock s)
                     (Z.of_nat (length (m_memBlocks s)) - 1) - 1]> (m_currentBlock s) ∧
    m_lastBlockFill s' =
      (if decide (0 < n ∧ tailEnd s - m_samplesPerBlock s < sp + n)
       then Z.max (m_lastBlockFill s) (sp + n - (tailEnd s - m_samplesPerBlock s))
       else m_lastBlockFill s) ∧
    ∀ (j : nat) r c, 0 ≤ r < m_samplesPerBlock s → 0 ≤ c < m_nChannels s →
      cell s' j r c =
      if decide (c = ch ∧ sp ≤ firstOffset s + Z.of_nat j * m_samplesPerBlock s + r < sp + n)
      then d !! Z.to_nat (firstOffset s + Z.of_nat j * m_samplesPerBlock s + r - sp)
      else cell s j r c.
Proof.
  intros Hok Hlen Hwr Hopen Hge Hcov.
  assert (needsAllocation s sp n = false) as Hna.
  { rewrite needsAllocation_spec; [|done|destruct Hwr, Hok; lia].
    apply bool_decide_eq_false. lia. }
  destruct (writeChannel_ok s sp ch d n Hok Hwr Hopen) as (s1 & idx & Hprep & _ & _ & _ & Hacc).
  { by rewrite Hna. }
  assert (s1 = s) as -> by (unfold prepared in Hprep; rewrite Hna in Hprep; by simplify_eq).
  destruct (Hacc Hge) as (_ & s2 & bi & Hres & Hsw & _ & Hcells).
  eexists. split; [exact Hres|].
  destruct (writeChannel_cursor _ _ _ _ _ _ Hok Hwr Hres) as (s1 & v & Hprep' & Hc & _ & Hv).
  rewrite Hprep in Hprep'. injection Hprep' as <-.
  destruct (writeChannel_fill _ _ _ _ _ _ Hok Hwr Hres) as (s1 & Hprep' & Hte & Hfill).
  rewrite Hprep in Hprep'. injection Hprep' as <-.
  split; [by eapply writeChannel_BlocksOk|]. split.
  { destruct Hsw. by split. }
  split; [|split].
  - rewrite Hc, Hv. unfold arr_set. pose proof (w_channel _ _ _ _ _ Hwr).
    destruct (ch <? 0) eqn:E1; [lia|].
    by destruct (ch <? Z.of_nat (length (m_currentBlock s))) eqn:E2; [|lia].
  - rewrite Hfill, Hte. done.
  - exact Hcells.
Qed.

(** X15. Writes of different channels commute: two writes within the contract,
    to different channels of an open file, both inside the window, leave the
    same state in either order, and each of the four calls accepts. *)
Theorem channel_writes_commute s sp1 ch1 d1 n1 sp2 ch2 d2 n2 :
  WindowOk s → m_file s = true →
  WriteOk s sp1 ch1 d1 n1 → WriteOk s sp2 ch2 d2 n2 →
  ch1 ≠ ch2 →
  firstOffset s ≤ sp1 → sp1 + n1 ≤ tailEnd s →
  firstOffset s ≤ sp2 → sp2 + n2 ≤ tailEnd s →
  ∃ sA sB s',
    writeChannel s sp1 ch1 d1 n1 = Some (true, sA) ∧
    writeChannel sA sp2 ch2 d2 n2 = Some (true, s') ∧
    writeChannel s sp2 ch2 d2 n2 = Some (true, sB) ∧
    writeChannel sB sp1 ch1 d1 n1 = Some (true, s').
Proof.
  intros [Hok [Hlen _]] Hopen Hw1 Hw2 Hne Hge1 Hcov1 Hge2 Hcov2.
  assert (∀ sp ch d n t, WriteOk s sp ch d n → BlocksOk t →
            SameWindow s (set_currentBlock t (m_currentBlock s)) →
            WriteOk t sp ch d n ∧ m_file t = true ∧ firstOffset t = firstOffset s ∧
            tailEnd t = tailEnd s ∧ m_samplesPerBlock t = m_samplesPerBlock s ∧
            m_nChannels t = m_nChannels s ∧
            length (m_memBlocks t) = length (m_memBlocks s)) as Hmove.
  { intros sp ch d n t [] Hokt Hsw.
    pose proof (SameWindow_firstOffset _ _ Hsw) as Hfo.
    pose proof (SameWindow_tailEnd _ _ Hsw) as Hte.
    pose proof (SameWindow_length _ _ Hsw) as Hl.
    destruct Hsw as [Hf _ HnCh Hspb _ _ _ _]. simpl in *.
    change (firstOffset (set_currentBlock t (m_currentBlock s))) with (firstOffset t) in Hfo.
    change (tailEnd (set_currentBlock t (m_currentBlock s))) with (tailEnd t) in Hte.
    split; [split; congruence || lia|]. split_and!; congruence. }
  destruct (covered_write s sp1 ch1 d1 n1 Hok Hlen Hw1 Hopen Hge1 Hcov1)
    as (sA & HA & HokA & HswA & HcurA & HfillA & HcellsA).
  destruct (covered_write s sp2 ch2 d2 n2 Hok Hlen Hw2 Hopen Hge2 Hcov2)
    as (sB & HB & HokB & HswB & HcurB & HfillB & HcellsB).
  destruct (Hmove _ _ _ _ sA Hw2 HokA HswA) as (Hw2A & HopenA & HfoA & HteA & HspbA & HnChA & HlA).
  destruct (Hmove _ _ _ _ sB Hw1 HokB HswB) as (Hw1B & HopenB & HfoB & HteB & HspbB & HnChB & HlB).
  destruct (covered_write sA sp2 ch2 d2 n2 HokA) as (sAB & HAB & HokAB & HswAB & HcurAB & HfillAB & HcellsAB);
    try (done || lia).
  { rewrite HcurA, length_insert. lia. }
  destruct (covered_write sB sp1 ch1 d1 n1 HokB) as (sBA & HBA & HokBA & HswBA & HcurBA & HfillBA & HcellsBA);
    try (done || lia).
  { rewrite HcurB, length_insert. lia. }
  exists sA, sB, sAB. split; [done|]. split; [done|]. split; [done|].
  rewrite HBA. do 2 f_equal.
  pose proof (w_channel _ _ _ _ _ Hw1) as Hch1. pose proof (w_channel _ _ _ _ _ Hw2) as Hch2.
  destruct HswA as [fA bA nA pA zA _ oA _], HswB as [fB bB nB pB zB _ oB _],
           HswAB as [fAB bAB nAB pAB zAB _ oAB _], HswBA as [fBA bBA nBA pBA zBA _ oBA _].
  simpl in *.
  change (offsets (set_currentBlock ?t _)) with (offsets t) in *.
  apply state_ext; try congruence.
  - apply blocks_ext; try (done || congruence).
    intros j r c Hr Hc. rewrite pAB, pA in Hr. rewrite nAB, nA in Hc.
    rewrite HcellsBA, HcellsAB, HcellsA, HcellsB by (rewrite ?HspbA, ?HspbB, ?HnChA, ?HnChB; done).
    rewrite HfoA, HfoB, HspbA, HspbB.
    repeat case_decide; done || lia.
  - rewrite HcurBA, HcurAB, HcurA, HcurB, HfoA, HfoB, HspbA, HspbB, HlA, HlB.
    apply list_insert_insert_ne. lia.
  - rewrite HfillBA, HfillAB, HfillA, HfillB, HteA, HteB, HspbA, HspbB.
    repeat case_decide; lia.
Qed.

Lemma channel_writes_commute_witness :
  ∃ sA sB s',
    writeChannel Scenario.s3 1 0 [50; 51] 2 = Some (true, sA) ∧
    writeChannel sA 4 1 [60; 61; 62] 3 = Some (true, s') ∧
    writeChannel Scenario.s3 4 1 [60; 61; 62] 3 = Some (true, sB) ∧
    writeChannel sB 1 0 [50; 51] 2 = Some (true, s').
Proof.
  apply (channel_writes_commute Scenario.s3 1 0 [50; 51] 2 4 1 [60; 61; 62] 3 Scenario_s3_ok).
  - reflexivity.
  - split; vm_compute; try done; split; discriminate.
  - split; vm_compute; try done; split; discriminate.
  - discriminate.
  - vm_compute. discriminate.
  - vm_compute. discriminate.
  - vm_compute. discriminate.
  - vm_compute. discriminate.
Defined.

(** ** Rows nobody wrote *)

(** X16. Gaps read as zero: after an accepted write, every cell of a resident
    row at or beyond the end of the window the call found, other than the
    cells the call has just written, holds 0. *)
Theorem unwritten_rows_read_zero s sp ch d n s' (j : nat) row c :
  BlocksOk s → WriteOk s sp ch d n →
  writeChannel s sp ch d n = Some (true, s') →
  (j < length (m_memBlocks s'))%nat →
  0 ≤ row < m_samplesPerBlock s → 0 ≤ c < m_nChannels s →
  tailEnd s ≤ firstOffset s' + Z.of_nat j * m_samplesPerBlock s + row →
  ¬ (c = ch ∧ sp ≤ firstOffset s' + Z.of_nat j * m_samplesPerBlock s + row < sp + n) →
  cell s' j row c = Some 0.
Proof.
  intros Hok Hwr Hres Hj Hrow Hc Hnew Hout. destruct (m_file s) eqn:Ef.
  2: { rewrite writeChannel_closed in Hres by done. simplify_eq. }
  destruct (writeChannel_inv _ _ _ _ _ _ _ Hok Hwr Ef Hres)
    as (s1 & s2 & cur & Hprep & Hok1 & Hcov & _ & _ & HnCh & Hspb & _ & Hsame & Hsw & -> & _ & _
        & Hcells).
  change (cell (set_currentBlock s2 cur) j row c) with (cell s2 j row c).
  change (firstOffset (set_currentBlock s2 cur)) with (firstOffset s2) in *.
  change (m_memBlocks (set_currentBlock s2 cur)) with (m_memBlocks s2) in *.
  rewrite (SameWindow_firstOffset _ _ Hsw) in *. rewrite (SameWindow_length _ _ Hsw) in Hj.
  rewrite Hcells by (done || congruence). rewrite Hspb, decide_False by done.
  pose proof (ok_spb s Hok) as Hspb0. pose proof (ok_nChannels s Hok) as HnCh0.
  pose proof (ok_first s Hok) as Hfirst. pose proof (BlocksOk_tailEnd s Hok) as Hte.
  destruct Hwr as [_ Hn _ Hsp Hreach Hroom].
  destruct (decide (sp + n ≤ tailEnd s)) as [Hle|Hgt].
  { rewrite (Hsame Hle) in *. unfold tailEnd in Hnew. nia. }
  unfold prepared in Hprep. rewrite needsAllocation_spec in Hprep by (done || lia).
  rewrite bool_decide_eq_true_2 in Hprep by lia.
  pose proof (allocateBlocks_Some_evicted _ _ _ _ Hprep) as Hk.
  destruct (allocateBlocks_count s sp n s1 Hok) as [Hbs _]; try (done || lia).
  destruct (allocateBlocks_ok s sp n Hok Hk) as (s1' & Ha & _ & _ & Hfo & _); try (done || lia).
  rewrite Hprep in Ha. injection Ha as <-.
  assert (0 ≤ (sp + n - tailEnd s) / m_samplesPerBlock s) as Hq by (apply Z.div_pos; lia).
  pose proof (Z.mul_div_le (sp + n - tailEnd s) (m_samplesPerBlock s) ltac:(lia)) as Hq'.
  unfold cell. rewrite Hbs in Hj |- *. rewrite length_app, length_drop, freshBlocks_length in Hj.
  assert (length (m_memBlocks s) - evicted s ≤ j)%nat as Hfresh.
  { rewrite Hfo in Hnew. unfold tailEnd in Hnew. nia. }
  rewrite lookup_app_r by (rewrite length_drop; lia). rewrite length_drop.
  destruct (freshBlocks _ _ _ _ !! _) as [b|] eqn:Hb.
  2: { apply lookup_ge_None in Hb. rewrite freshBlocks_length in Hb. lia. }
  apply freshBlocks_lookup in Hb; [|lia|lia|nia]. subst b. simpl.
  rewrite HnCh. apply lookup_replicate_2. rewrite (ok_blockSize s Hok). nia.
Qed.

Lemma unwritten_rows_read_zero_witness :
  tailEnd Scenario.s3 = 8 ∧
  ∃ s', writeChannel Scenario.s3 9 1 [70; 71; 72; 73] 4 = Some (true, s') ∧
        offsets s' = [0; 4; 8; 12] ∧ cell s' 2 0 1 = Some 0 ∧ cell s' 3 0 1 = Some 73.
Proof.
  split; [vm_compute; reflexivity|].
  eexists. split; [vm_compute; reflexivity|]. split; [vm_compute; reflexivity|].
  split; [|vm_compute; reflexivity].
  match goal with |- cell ?x _ _ _ = _ =>
    apply (unwritten_rows_read_zero Scenario.s3 9 1 [70; 71; 72; 73] 4 x 2 0 1
             (proj1 Scenario_s3_ok)) end.
  - split; vm_compute; try done; split; discriminate.
  - vm_compute. reflexivity.
  - vm_compute. lia.
  - vm_compute. split; discriminate || reflexivity.
  - vm_compute. split; discriminate || reflexivity.
  - vm_compute. discriminate.
  - vm_compute. intros [_ [H _]]. apply H. reflexivity.
Defined.
